(** * HEX automation hub: retry, backoff, pacing and bounded batches

    A shallow embedding of the retry loops of [automation/api_automation.py]
    ([APIAutomation.make_request], [APIAutomation.run_async]) and of
    [automation/web_scraper.py] ([WebScraper.scrape_static], the [fetch]
    closure of [WebScraper.scrape_async]), with the properties the
    specification of the bounded concurrent task executor states about them.

    Conventions.
    - Python dicts are [gmap string pyval]; [None] is [PNone].
    - A coroutine or function is a value of [io A]: the events it performs, in
      order, and how it completes (a return value or a raised exception).
    - The outside world is an oracle: [session] tells how the HTTP call made
      during attempt [a] ends, and [rnd a] is the number in [0, 1) that
      [random.random()] yields for the pacing delay of attempt [a].
    - Durations are rationals; floating-point rounding is not modelled.
    - Configuration values have the Python types of the constructor's
      defaults: integers for [concurrency] and [retry], a two-element
      sequence for [delay_range].
    - An exception [exn] is an instance of [Exception], the class every
      [except] clause of the two modules names.  Cancellation of a task and
      the interpreter's exit signals ([asyncio.CancelledError],
      [KeyboardInterrupt], [SystemExit]) are not instances of it, pass
      through these clauses uncaught, and are outside the model: an oracle
      says of each call that it returns or that it raises an instance of
      [Exception], and the statements about failing attempts are about such
      exceptions.
    - The logger's warning and error lines of the retry loops are events of
      the trace; logging set-up and the info lines are left out, and of the
      storage writers only what [save_to_csv] hands to the CSV writer is
      modelled. *)

From Stdlib Require Import ZArith QArith Lia Lqa Ascii String.
From stdpp Require Import base option list strings pretty gmap.

(** ** Python values, exceptions, completions *)

#[warnings="-register-all"]
Inductive pyval :=
| PNone
| PInt (n : Z)
| PStr (s : string)
| PList (l : list pyval)
| PDict (d : gmap string pyval).

(** [type(v).__name__] *)
Definition type_name (v : pyval) : string :=
  match v with
  | PNone => "NoneType"
  | PInt _ => "int"
  | PStr _ => "str"
  | PList _ => "list"
  | PDict _ => "dict"
  end.

(** An exception instance: its class and [str(e)]. *)
Record exn := Exn { exn_class : string; str : string }.

Inductive completion (A : Type) :=
| Returned (a : A)
| Raised (e : exn).
Arguments Returned {A} a.
Arguments Raised {A} e.

(** ** Events *)

Inductive sleep_site :=
| Pacing    (* sleep(delay), delay drawn by random.uniform from delay_range *)
| Backoff.  (* sleep(2 ** attempt) *)

Inductive http_verb := GET | POST | PUT | DELETE.

Inductive log_level := WARNING | ERROR.

(** The f-strings handed to the logger, with their holes. *)
Inductive log_message :=
| AttemptFailed (attempt_no : nat) (url : pyval) (msg : string)
    (* f"Attempt {attempt+1} failed for {url}: {str(e)}" *)
| FailedAfter (url : pyval) (retry_count : Z)
    (* f"Failed to fetch {url} after {self.retry_count} attempts" and
       f"Failed to scrape {url} after {self.retry_count} attempts" *)
| FailedToFetch (url : pyval) (msg : string).
    (* f"Failed to fetch {url}: {str(e)}" *)

Inductive event :=
| Sleep (site : sleep_site) (d : Q)
| Request (verb : http_verb) (url headers params : pyval) (json : option pyval)
    (* self.session.get / post / put / delete *)
| Fetch (url : pyval) (proxy : option string)
    (* session.get(url, headers=headers, ...) of the scraper *)
| Log (level : log_level) (msg : log_message).

(** ** The [io] monad: events performed, then a completion *)

Definition io (A : Type) : Type := list event * completion A.

Definition raise {A} (e : exn) : io A := ([], Raised e).
Definition emit (ev : event) : io unit := ([ev], Returned tt).
Definition lift {A} (c : completion A) : io A := ([], c).

#[global] Instance io_ret : MRet io := λ A a, ([], Returned a).

#[global] Instance io_bind : MBind io := λ A B k m,
  match m with
  | (t, Returned a) => let '(t', c) := k a in (t ++ t', c)
  | (t, Raised e) => (t, Raised e)
  end.

(** [try: m  except Exception as e: h e].  Every [exn] is an instance of
    [Exception], so the clause catches whatever [m] raises here. *)
Definition try_except {A} (m : io A) (h : exn → io A) : io A :=
  match m with
  | (t, Returned a) => (t, Returned a)
  | (t, Raised e) => let '(t', c) := h e in (t ++ t', c)
  end.

Definition trace {A} (m : io A) : list event := m.1.
Definition outcome {A} (m : io A) : completion A := m.2.

(** ** str.upper, on ASCII text *)

(** Method names are taken to be ASCII text: the letters [a-z] are mapped to
    [A-Z] and every other character is kept, as [str.upper] does on ASCII. *)

Definition upper_ascii (c : ascii) : ascii :=
  let n := nat_of_ascii c in
  if (97 <=? n)%nat && (n <=? 122)%nat then ascii_of_nat (n - 32) else c.

Fixpoint upper (s : string) : string :=
  match s with
  | EmptyString => EmptyString
  | String c s' => String (upper_ascii c) (upper s')
  end.

(** [v.upper()] for an arbitrary value [v]: only [str] has the method. *)
Definition call_upper (v : pyval) : completion string :=
  match v with
  | PStr s => Returned (upper s)
  | _ => Raised (Exn "AttributeError"
                   ("'" +:+ type_name v +:+ "' object has no attribute 'upper'"))
  end.

(** ** random.uniform and the backoff delay *)

(** [random.uniform(a, b)] is [a + (b - a) * self.random()]. *)
Definition uniform (a b r : Q) : Q := (a + (b - a) * r)%Q.

(** [2 ** attempt] *)
Definition backoff_delay (attempt : nat) : Q := inject_Z (2 ^ Z.of_nat attempt).

(** ** automation/api_automation.py *)

Module api_automation.

Record response := Response {
  status : Z;
  headers : gmap string string;
  text : string
}.

(** How the call made during attempt [a] ends: a response whose body was
    read, or the exception raised inside the [async with] block. *)
Definition session := nat → completion response.

Record APIAutomation := {
  endpoints : list (gmap string pyval);
  concurrency : Z;
  retry_count : Z;
  delay_range : Q * Q
}.

(** The keys of the configuration dict that [__init__] reads; [None] is an
    absent key. *)
Record api_config := {
  cfg_endpoints : option (list (gmap string pyval));
  cfg_concurrency : option Z;
  cfg_retry : option Z;
  cfg_delay_range : option (Q * Q)
}.

(** [APIAutomation.__init__]: four [config.get] calls with defaults.  There is
    no [raise] and no check on the values read. *)
Definition init (config : api_config) : completion APIAutomation :=
  Returned {|
    endpoints := default [] (cfg_endpoints config);
    concurrency := default 5%Z (cfg_concurrency config);
    retry_count := default 3%Z (cfg_retry config);
    delay_range := default (1, 3)%Q (cfg_delay_range config)
  |}.

Definition success_record (url : pyval) (r : response) : pyval :=
  PDict {[ "url" := url;
           "status" := PInt (status r);
           "headers" := PDict (PStr <$> headers r);
           "data" := PStr (text r) ]}.

Definition error_record (url : pyval) (e : exn) : pyval :=
  PDict {[ "url" := url; "error" := PStr (str e) ]}.

Section make_request.
Context (self : APIAutomation) (net : session) (rnd : nat → Q).
Context (url : pyval) (method : string) (headers params data : pyval).

(** One [async with self.session.<verb>(...) as response] block. *)
Definition call (attempt : nat) (verb : http_verb) (json : option pyval)
  : io pyval :=
  emit (Request verb url headers params json);;
  response ← lift (net attempt);
  mret (success_record url response).

(** The [if method == ...] chain of lines 84-121: the operation. *)
Definition operation (attempt : nat) : io pyval :=
  if bool_decide (method = "GET") then call attempt GET None
  else if bool_decide (method = "POST") then call attempt POST (Some data)
  else if bool_decide (method = "PUT") then call attempt PUT (Some data)
  else if bool_decide (method = "DELETE") then call attempt DELETE None
  else raise (Exn "ValueError" ("Unsupported HTTP method: " +:+ method)).

(** The body of the [try] of lines 79-121. *)
Definition try_body (attempt : nat) : io pyval :=
  let delay := uniform (delay_range self).1 (delay_range self).2 (rnd attempt) in
  emit (Sleep Pacing delay);;
  operation attempt.

(** [for attempt in range(self.retry_count)], with [todo] iterations left;
    running off the end of the loop returns [None]. *)
Fixpoint retry_loop (todo attempt : nat) : io pyval :=
  match todo with
  | O => mret PNone
  | S todo' =>
      try_except (try_body attempt) (λ e,
        emit (Log WARNING (AttemptFailed (S attempt) url (str e)));;
        if (Z.of_nat attempt <? retry_count self - 1)%Z then
          emit (Sleep Backoff (backoff_delay attempt));;
          retry_loop todo' (S attempt)
        else
          emit (Log ERROR (FailedAfter url (retry_count self)));;
          mret (error_record url e))
  end.
End make_request.

(** The locals that lines 72-76 of [make_request] read from the endpoint. *)
Definition url_of (endpoint : gmap string pyval) : pyval :=
  default PNone (endpoint !! "url").
Definition method_of (endpoint : gmap string pyval) : completion string :=
  call_upper (default (PStr "GET") (endpoint !! "method")).
Definition headers_of (endpoint : gmap string pyval) : pyval :=
  default (PDict ∅) (endpoint !! "headers").
Definition params_of (endpoint : gmap string pyval) : pyval :=
  default (PDict ∅) (endpoint !! "params").
Definition data_of (endpoint : gmap string pyval) : pyval :=
  default (PDict ∅) (endpoint !! "data").

(** [APIAutomation.make_request] *)
Definition make_request (self : APIAutomation) (net : session) (rnd : nat → Q)
    (endpoint : gmap string pyval) : io pyval :=
  let url := url_of endpoint in
  method ← lift (method_of endpoint);
  let headers := headers_of endpoint in
  let params := params_of endpoint in
  let data := data_of endpoint in
  retry_loop self net rnd url method headers params data
    (Z.to_nat (retry_count self)) 0.

(** The operation [make_request] performs for [endpoint] at attempt [a], once
    the method has been read as the string [method]. *)
Definition operation_of (net : session) (endpoint : gmap string pyval)
    (method : string) (a : nat) : io pyval :=
  operation net (url_of endpoint) method (headers_of endpoint)
    (params_of endpoint) (data_of endpoint) a.

(** The methods the [if] chain of [make_request] has a branch for. *)
Definition supported (method : string) : Prop :=
  method ∈ ["GET"; "POST"; "PUT"; "DELETE"].

(** *** run_async: tasks behind a semaphore *)

(** Where a [bounded_request] task stands. *)
Inductive phase :=
| Waiting                         (* at [async with semaphore], not admitted *)
| Running                         (* inside [make_request], holding a slot *)
| Finished (c : completion pyval). (* done; [c] is what [gather] collects *)

Definition is_waiting (p : phase) : bool :=
  match p with Waiting => true | _ => false end.
Definition is_running (p : phase) : bool :=
  match p with Running => true | _ => false end.

(** The semaphore's counter and the tasks, in the order of [self.endpoints]. *)
Record batch := Batch { sem_value : Z; tasks : list phase }.

Section run_async.
Context (self : APIAutomation).
(** Task [i] talks to [net i] and draws its pacing delays from [rnd i]. *)
Context (net : nat → session) (rnd : nat → nat → Q).

(** What task [i] returns or raises. *)
Definition task_result (i : nat) (endpoint : gmap string pyval)
  : completion pyval :=
  outcome (make_request self (net i) (rnd i) endpoint).

(** [semaphore.acquire()] by task [i]: the counter is positive. *)
Definition acquire (i : nat) (b : batch) : batch :=
  Batch (sem_value b - 1) (<[i := Running]> (tasks b)).

(** Task [i] leaves [async with semaphore] with its result: [release()]. *)
Definition release (i : nat) (endpoint : gmap string pyval) (b : batch) : batch :=
  Batch (sem_value b + 1) (<[i := Finished (task_result i endpoint)]> (tasks b)).

(** The moves of the event loop; any admissible order of them is allowed.
    The relation allows every interleaving the semaphore permits, among them
    interleavings the event loop never produces (a task whose [make_request]
    never suspends is not overtaken), so it serves to bound what every run
    satisfies, not to show that a state occurs. *)
Inductive step : batch → batch → Prop :=
| step_acquire i b :
    tasks b !! i = Some Waiting →
    (0 < sem_value b)%Z →
    step b (acquire i b)
| step_release i endpoint b :
    tasks b !! i = Some Running →
    endpoints self !! i = Some endpoint →
    step b (release i endpoint b).

(** [asyncio.Semaphore(self.concurrency)] and the tasks list of line 146. *)
Definition start : batch :=
  Batch (concurrency self) (replicate (length (endpoints self)) Waiting).

(** Lines 150-156: an exception collected by [gather] becomes an error
    record, any other result is kept. *)
Definition process (result : completion pyval) : pyval :=
  match result with
  | Raised e => PDict {[ "error" := PStr (str e) ]}
  | Returned r => r
  end.

(** The results [gather] hands back when every task is done. *)
Definition gathered (b : batch) : option (list (completion pyval)) :=
  mapM (λ p, match p with Finished c => Some c | _ => None end) (tasks b).

Definition processed_results (b : batch) : option (list pyval) :=
  (λ results : list (completion pyval), process <$> results) <$> gathered b.

(** One scheduling choice: admit the first waiting task while a slot is
    free, otherwise let the first running task finish. *)
Definition next (b : batch) : option batch :=
  match (if (0 <? sem_value b)%Z then list_find is_waiting (tasks b) else None) with
  | Some (i, _) => Some (acquire i b)
  | None =>
      match list_find is_running (tasks b) with
      | Some (i, _) =>
          match endpoints self !! i with
          | Some endpoint => Some (release i endpoint b)
          | None => None
          end
      | None => None
      end
  end.

Fixpoint drive (fuel : nat) (b : batch) : batch :=
  match fuel with
  | O => b
  | S fuel' => match next b with Some b' => drive fuel' b' | None => b end
  end.

(** [APIAutomation.run_async].  [None] stands for a call that does not
    return: tasks are left waiting at the semaphore for ever. *)
Definition run_async : option (completion (list pyval)) :=
  if (concurrency self <? 0)%Z then
    Some (Raised (Exn "ValueError" "Semaphore initial value must be >= 0"))
  else
    Returned <$> processed_results (drive (2 * length (endpoints self)) start).

(** [APIAutomation.run] *)
Definition run (dry_run : bool) : option (completion (list pyval)) :=
  if dry_run then Some (Returned []) else run_async.

(** The states a batch can be in, under any scheduling. *)
Definition reachable (b : batch) : Prop := rtc step start b.

(** The number of tasks inside [make_request], holding a slot. *)
Definition in_flight (b : batch) : nat :=
  sum_list_with (λ p, if is_running p then 1 else 0) (tasks b).

(** The moves a batch still has to make: two for a waiting task, one for a
    running one. *)
Definition work (b : batch) : nat :=
  sum_list_with (λ p, match p with Waiting => 2 | Running => 1 | Finished _ => 0 end)
    (tasks b).

(** What every reachable batch satisfies: one task per endpoint, the
    semaphore's counter is the capacity less the tasks in flight, and a
    finished task holds the result of its own endpoint. *)
Definition batch_inv (b : batch) : Prop :=
  length (tasks b) = length (endpoints self) ∧
  (sem_value b + Z.of_nat (in_flight b) = concurrency self)%Z ∧
  (0 ≤ sem_value b)%Z ∧
  ∀ i c, tasks b !! i = Some (Finished c) →
         ∃ endpoint, endpoints self !! i = Some endpoint ∧
                     c = task_result i endpoint.

End run_async.

End api_automation.

(** ** automation/web_scraper.py *)

Module web_scraper.

Record WebScraper := {
  selectors : gmap string string;
  retry_count : Z;
  delay_range : Q * Q;
  proxies : list string
}.

(** A fetched and parsed page: for a CSS selector, the stripped texts of the
    elements [soup.select] finds. *)
Definition page := string → list string.

(** How fetching and parsing during attempt [a] ends. *)
Definition web := nat → completion page.

(** [{key: [elem.get_text(strip=True) for elem in soup.select(selector)]}] *)
Definition extract (self : WebScraper) (pg : page) : gmap string pyval :=
  (λ selector, PList (PStr <$> pg selector)) <$> selectors self.

(** [random.choice(self.proxies) if self.proxies else None], then the
    [if proxy] test of the next line. *)
Definition pick_proxy (self : WebScraper) (r : nat) : option string :=
  match proxies self !! (r mod length (proxies self)) with
  | Some p => if bool_decide (p = "") then None else Some p
  | None => None
  end.

Section scrape_static.
Context (self : WebScraper) (www : web) (pick : nat → nat) (url : string).

(** The body of the [try] of lines 69-88. *)
Definition static_body (attempt : nat) : io pyval :=
  emit (Fetch (PStr url) (pick_proxy self (pick attempt)));;
  pg ← lift (www attempt);
  mret (PDict (extract self pg)).

Fixpoint static_loop (todo attempt : nat) : io pyval :=
  match todo with
  | O => mret PNone
  | S todo' =>
      try_except (static_body attempt) (λ e,
        emit (Log WARNING (AttemptFailed (S attempt) (PStr url) (str e)));;
        if (Z.of_nat attempt <? retry_count self - 1)%Z then
          emit (Sleep Backoff (backoff_delay attempt));;
          static_loop todo' (S attempt)
        else
          emit (Log ERROR (FailedAfter (PStr url) (retry_count self)));;
          raise e)
  end.

(** [WebScraper.scrape_static] *)
Definition scrape_static : io pyval :=
  static_loop (Z.to_nat (retry_count self)) 0.

(** The body of the [try] in [fetch], lines 103-116; a selector named
    [url] overwrites the [url] entry. *)
Definition fetch_body (attempt : nat) : io pyval :=
  emit (Fetch (PStr url) None);;
  pg ← lift (www attempt);
  mret (PDict (extract self pg ∪ {[ "url" := PStr url ]})).

Fixpoint fetch_loop (todo attempt : nat) : io pyval :=
  match todo with
  | O => mret PNone
  | S todo' =>
      try_except (fetch_body attempt) (λ e,
        if (Z.of_nat attempt <? retry_count self - 1)%Z then
          emit (Sleep Backoff (backoff_delay attempt));;
          fetch_loop todo' (S attempt)
        else
          emit (Log ERROR (FailedToFetch (PStr url) (str e)));;
          mret (PDict {[ "url" := PStr url; "error" := PStr (str e) ]}))
  end.

(** The closure [fetch] of [WebScraper.scrape_async] *)
Definition fetch : io pyval :=
  fetch_loop (Z.to_nat (retry_count self)) 0.

End scrape_static.

(** The tasks [scrape_async] hands to [gather], one per URL. *)
Definition scrape_async (self : WebScraper) (www : nat → web) (urls : list string)
  : list (io pyval) :=
  imap (λ i url, fetch self (www i) url) urls.

End web_scraper.

(** ** Reading traces *)

Definition is_request (ev : event) : bool :=
  match ev with Request _ _ _ _ _ => true | _ => false end.

Definition is_pacing (ev : event) : bool :=
  match ev with Sleep Pacing _ => true | _ => false end.

Definition is_warning (ev : event) : bool :=
  match ev with Log WARNING _ => true | _ => false end.

(** A call of the operation's transport: an API request or a scraper fetch. *)
Definition is_call (ev : event) : bool :=
  match ev with Request _ _ _ _ _ | Fetch _ _ => true | _ => false end.

Definition count (p : event → bool) (t : list event) : nat :=
  length (List.filter p t).

(** The durations of the backoff sleeps of a trace, in order. *)
Definition backoffs (t : list event) : list Q :=
  omap (λ ev, match ev with Sleep Backoff d => Some d | _ => None end) t.

(** An event of an attempt's own body, or the closing error line: neither
    the warning that reports a failed attempt nor a backoff sleep. *)
Definition quiet (ev : event) : bool :=
  match ev with
  | Log WARNING _ | Sleep Backoff _ => false
  | _ => true
  end.

(** The trace begins with the first event of an attempt: the pacing sleep
    of [make_request], or the call itself where there is no pacing. *)
Definition starts_attempt (t : list event) : Prop :=
  ∃ ev t', t = ev :: t' ∧ (is_pacing ev || is_call ev).

(** The shape of the trace of a retry loop that reports failed attempts, from
    attempt [a] on, for the retry limit [rc]:
    - the attempt ends the loop without a failure report;
    - the attempt fails, is not the last one, and is followed by the backoff
      sleep and the rest of the loop, which begins with the next attempt;
    - the attempt fails and is the last one. *)
Inductive retry_trace (rc : Z) : nat → list event → Prop :=
| retry_trace_quiet a t :
    Forall quiet t →
    retry_trace rc a t
| retry_trace_retry a t u msg rest :
    Forall quiet t →
    (Z.of_nat a < rc - 1)%Z →
    retry_trace rc (S a) rest →
    starts_attempt rest →
    retry_trace rc a
      (t ++ Log WARNING (AttemptFailed (S a) u msg)
         :: Sleep Backoff (backoff_delay a) :: rest)
| retry_trace_give_up a t u msg closing :
    Forall quiet t →
    ¬ (Z.of_nat a < rc - 1)%Z →
    Forall quiet closing →
    retry_trace rc a (t ++ Log WARNING (AttemptFailed (S a) u msg) :: closing).

(** The backoff rule of a trace, for the retry limit [rc]: the report of the
    failed attempt number [a + 1] is followed at once by a backoff sleep of
    [2^a] and then by the next attempt when [a <= rc - 2], and by no backoff
    sleep at all otherwise; and the backoff sleeps of the whole trace are
    [2^0, 2^1, ...], at most [rc - 1] of them. *)
Definition backoff_rule (rc : Z) (t : list event) : Prop :=
  (∀ pre a u msg post,
     t = pre ++ Log WARNING (AttemptFailed (S a) u msg) :: post →
     if (Z.of_nat a <? rc - 1)%Z
     then ∃ next_attempt,
            post = Sleep Backoff (inject_Z (2 ^ Z.of_nat a)) :: next_attempt ∧
            starts_attempt next_attempt
     else backoffs post = []) ∧
  (∃ m, backoffs t = (λ a, inject_Z (2 ^ Z.of_nat a)) <$> seq 0 m ∧
        (Z.of_nat m ≤ Z.max 0 (rc - 1))%Z).

(** The pacing rule of a trace: the call number [n] (from 0) comes right
    after a pacing sleep of duration [delay n]. *)
Definition paced_by (delay : nat → Q) (t : list event) : Prop :=
  ∀ pre ev post,
    t = pre ++ ev :: post → is_call ev →
    ∃ pre', pre = pre' ++ [Sleep Pacing (delay (count is_call pre'))].

(** ** Storage, pagination and the scraper's entry point *)

(** Lines 166-169 of api_automation.py and 181-184 of web_scraper.py, the
    same loop in both classes: the items that are dicts and have no [error]
    key. *)
Definition flattened_data (data : list pyval) : list (gmap string pyval) :=
  omap (λ item,
          match item with
          | PDict d => match d !! "error" with None => Some d | Some _ => None end
          | _ => None
          end) data.

(** What [save_to_csv] hands to [csv.DictWriter]: the field names (a set, in
    no particular order) and the rows. *)
Record csv_file := CsvFile {
  fieldnames : gset string;
  rows : list (gmap string pyval)
}.

(** [keys = set()], then [keys.update(item.keys())] for each item. *)
Definition all_keys (items : list (gmap string pyval)) : gset string :=
  foldl (λ keys item, keys ∪ dom item) ∅ items.

(** [save_to_csv] of both classes; [None] when it returns before opening the
    file. *)
Definition save_to_csv (data : list pyval) : option csv_file :=
  match data with
  | [] => None
  | _ =>
      let flattened := flattened_data data in
      match flattened with
      | [] => None
      | _ => Some (CsvFile (all_keys flattened) flattened)
      end
  end.

(** ['?' in base_url] *)
Fixpoint has_char (c : ascii) (s : string) : bool :=
  match s with
  | EmptyString => false
  | String c' s' => bool_decide (c' = c) || has_char c s'
  end.

(** The keys [handle_pagination] reads from [self.pagination], [None] for an
    absent key. *)
Record pagination_config := {
  pg_param : option string;
  pg_start : option Z;
  pg_end : option Z
}.

(** [WebScraper.handle_pagination].  The argument [pagination] is [None] for
    an empty dict, which [if not pagination_config] takes as no pagination. *)
Definition handle_pagination (base_url : string)
    (pagination : option pagination_config) : list string :=
  match pagination with
  | None => [base_url]
  | Some pagination_config =>
      let page_param := default "page" (pg_param pagination_config) in
      let start_page := default 1%Z (pg_start pagination_config) in
      let end_page := default 10%Z (pg_end pagination_config) in
      (λ page : Z,
         if has_char "?" base_url
         then base_url +:+ "&" +:+ page_param +:+ "=" +:+ pretty page
         else base_url +:+ "?" +:+ page_param +:+ "=" +:+ pretty page)
        <$> seqZ start_page (end_page + 1 - start_page)
  end.

(** [await asyncio.gather] of the tasks, once finished: their results in the
    order of the tasks, or an exception one of them raised. *)
Fixpoint gather_all {A} (results : list (completion A)) : completion (list A) :=
  match results with
  | [] => Returned []
  | Returned a :: results' =>
      match gather_all results' with
      | Returned l => Returned (a :: l)
      | Raised e => Raised e
      end
  | Raised e :: _ => Raised e
  end.

(** [time.sleep(secs)]: a negative length is refused. *)
Definition time_sleep (secs : Q) : io unit :=
  if Qle_bool 0 secs then emit (Sleep Pacing secs)
  else raise (Exn "ValueError" "sleep length must be non-negative").

(** [asyncio.run(main)], [main] standing for how the coroutine completes once
    run.  The call is refused, and the coroutine never started, when an event
    loop is already running in the calling thread; this is how
    [cli.run_web_scraper], itself a coroutine, calls [WebScraper.run]. *)
Definition asyncio_run {A} (loop_running : bool) (main : completion A) : io A :=
  if loop_running then
    raise (Exn "RuntimeError"
             "asyncio.run() cannot be called from a running event loop")
  else lift main.

Section scraper_run.
Context (self : web_scraper.WebScraper).
(** The fields of [self] that [run] and [handle_pagination] read besides
    those of [WebScraper]. *)
Context (mode : string) (base_url : string)
        (pagination : option pagination_config).
(** Task [i] of [scrape_async], and [scrape_static] as task 0, fetch from
    [www i]; [rnd n] is the [n]-th draw of [random.random()]. *)
Context (www : nat → web_scraper.web) (pick : nat → nat) (rnd : nat → Q).
(** [WebScraper.scrape_js_heavy], which drives a browser, for the URL number
    [i] of the run. *)
Context (scrape_js_heavy : nat → string → io pyval).
(** Whether [run] is called while an event loop is running in the thread. *)
Context (loop_running : bool).

(** The [for url in urls] loop of the [js] branch, from URL number [i] on,
    with [data] collected so far. *)
Fixpoint js_loop (urls : list string) (i : nat) (data : list pyval)
  : io (list pyval) :=
  match urls with
  | [] => mret data
  | url :: urls' =>
      item ← scrape_js_heavy i url;
      time_sleep (uniform (web_scraper.delay_range self).1
                    (web_scraper.delay_range self).2 (rnd (S i)));;
      js_loop urls' (S i) (data ++ [item])
  end.

(** [WebScraper.run].  The events are those of [run] itself and of the
    functions it calls in sequence; the events of the tasks that
    [asyncio.run(self.scrape_async(urls))] runs concurrently are those of
    each task's own [fetch]. *)
Definition scraper_run (dry_run : bool) : io (list pyval) :=
  if dry_run then mret []
  else
    time_sleep (uniform (web_scraper.delay_range self).1
                  (web_scraper.delay_range self).2 (rnd 0));;
    if bool_decide (mode = "static") then
      let urls := handle_pagination base_url pagination in
      match urls with
      | [url] =>
          item ← web_scraper.scrape_static self (www 0) pick url;
          mret [item]
      | _ =>
          asyncio_run loop_running
            (gather_all (outcome <$> web_scraper.scrape_async self www urls))
      end
    else if bool_decide (mode = "js") then
      js_loop (handle_pagination base_url pagination) 0 []
    else raise (Exn "ValueError" ("Unsupported mode: " +:+ mode)).

End scraper_run.

(** The method string each branch of the [if] chain of [make_request] tests
    for. *)
Definition verb_name (verb : http_verb) : string :=
  match verb with
  | GET => "GET" | POST => "POST" | PUT => "PUT" | DELETE => "DELETE"
  end.

(** The [json=] argument of the call: [session.post] and [session.put] get
    [data], [session.get] and [session.delete] get none. *)
Definition body_of (verb : http_verb) (data : pyval) : option pyval :=
  match verb with
  | POST | PUT => Some data
  | GET | DELETE => None
  end.

(** The sum of a list of durations. *)
Definition total (durations : list Q) : Q := foldr Qplus 0%Q durations.

(** ** Sample inputs for the closed statements *)

Section samples.
Import api_automation.

Definition sample_endpoint : gmap string pyval :=
  {[ "url" := PStr "https://api.example.com/data"; "method" := PStr "GET" ]}.

Definition sample_api (retry : Z) : APIAutomation :=
  {| endpoints := [sample_endpoint]; concurrency := 5;
     retry_count := retry; delay_range := (1, 3)%Q |}.

Definition always_failing : session :=
  λ _, Raised (Exn "ClientConnectionError" "connection refused").

Definition third_time_lucky : session :=
  λ a, if decide (a = 2) then Returned (Response 200 ∅ "ok")
       else Raised (Exn "ClientConnectionError" "connection refused").

Definition half : nat → Q := λ _, (1 # 2)%Q.

Definition invalid_config : api_config :=
  {| cfg_endpoints := Some [sample_endpoint];
     cfg_concurrency := Some 0%Z;
     cfg_retry := Some (-1)%Z;
     cfg_delay_range := Some (3, 1)%Q |}.

Definition sample_scraper (retry : Z) : web_scraper.WebScraper :=
  {| web_scraper.selectors := {[ "title" := "h1" ]};
     web_scraper.retry_count := retry;
     web_scraper.delay_range := (1, 3)%Q;
     web_scraper.proxies := [] |}.

Definition not_found : web_scraper.web :=
  λ _, Raised (Exn "HTTPError" "404 Client Error: Not Found").

Definition blank_page : web_scraper.web := λ _, Returned (λ _, []).

End samples.

(** * Properties *)

Import api_automation.

(** ** Equations of the retry loop of [make_request] *)

Lemma trace_mk {A} t (c : completion A) : trace (t, c) = t.
Proof. reflexivity. Qed.

Lemma outcome_mk {A} t (c : completion A) : outcome (t, c) = c.
Proof. reflexivity. Qed.

Lemma count_app p t1 t2 : count p (t1 ++ t2) = count p t1 + count p t2.
Proof. unfold count. by rewrite List.filter_app, length_app. Qed.

Lemma count_cons p ev t :
  count p (ev :: t) = (if p ev then 1 else 0) + count p t.
Proof. unfold count. simpl. by destruct (p ev). Qed.

Lemma backoffs_app t1 t2 : backoffs (t1 ++ t2) = backoffs t1 ++ backoffs t2.
Proof. apply omap_app. Qed.

Section retry_loop_facts.
Context (self : APIAutomation) (net : session) (rnd : nat → Q).
Context (url : pyval) (method : string) (headers params data : pyval).

Local Abbreviation op := (operation net url method headers params data).
Local Abbreviation body := (try_body self net rnd url method headers params data).
Local Abbreviation loop := (retry_loop self net rnd url method headers params data).
Local Abbreviation pace a :=
  (Sleep Pacing (uniform (delay_range self).1 (delay_range self).2 (rnd a))).
Local Abbreviation warn a e := (Log WARNING (AttemptFailed (S a) url (str e))).

Lemma try_body_eq a :
  body a = (pace a :: trace (op a), outcome (op a)).
Proof.
  unfold try_body, trace, outcome. cbn.
  by destruct (op a) as [t [r|e]].
Qed.

(** The operation either calls the session once, and ends as the session
    says, or (unsupported method) raises without calling it. *)
Lemma operation_supported a :
  supported method →
  ∃ verb json,
    op a = ([Request verb url headers params json],
                   match net a with
                   | Returned r => Returned (success_record url r)
                   | Raised e => Raised e
                   end).
Proof.
  unfold supported. rewrite !elem_of_cons, elem_of_nil.
  intros Hm. unfold operation, call.
  repeat case_bool_decide;
    try (eexists _, _; cbn; destruct (net a); reflexivity).
  by destruct Hm as [?|[?|[?|[?|[]]]]].
Qed.

Lemma operation_unsupported a :
  ¬ supported method →
  op a =
    ([], Raised (Exn "ValueError" ("Unsupported HTTP method: " +:+ method))).
Proof.
  unfold supported. rewrite !elem_of_cons, elem_of_nil.
  intros Hm. unfold operation.
  repeat case_bool_decide; try reflexivity; exfalso; apply Hm; auto.
Qed.

Lemma retry_loop_returned todo a r :
  outcome (op a) = Returned r →
  loop (S todo) a = (pace a :: trace (op a), Returned r).
Proof.
  intros Hr. cbn [retry_loop]. rewrite try_body_eq, Hr. reflexivity.
Qed.

Lemma retry_loop_retry todo a e :
  outcome (op a) = Raised e →
  (Z.of_nat a < retry_count self - 1)%Z →
  loop (S todo) a =
    (pace a :: trace (op a)
       ++ warn a e :: Sleep Backoff (backoff_delay a)
       :: trace (loop todo (S a)),
     outcome (loop todo (S a))).
Proof.
  intros He Hlt. cbn [retry_loop]. rewrite try_body_eq, He.
  apply Z.ltb_lt in Hlt. unfold try_except. cbn. rewrite Hlt. cbn.
  unfold trace, outcome.
  by destruct (loop todo (S a)) as [t c].
Qed.

Lemma retry_loop_give_up todo a e :
  outcome (op a) = Raised e →
  ¬ (Z.of_nat a < retry_count self - 1)%Z →
  loop (S todo) a =
    (pace a :: trace (op a)
       ++ [warn a e; Log ERROR (FailedAfter url (retry_count self))],
     Returned (error_record url e)).
Proof.
  intros He Hge. cbn [retry_loop]. rewrite try_body_eq, He.
  apply Z.ltb_nlt in Hge. unfold try_except. cbn. rewrite Hge. reflexivity.
Qed.

Lemma operation_trace a :
  trace (op a) = [] ∨
  ∃ verb json, trace (op a) = [Request verb url headers params json].
Proof.
  destruct (decide (supported method)) as [Hs|Hs].
  - right. destruct (operation_supported a Hs) as (verb & json & ->). eauto.
  - left. by rewrite operation_unsupported.
Qed.

Lemma operation_returned a r :
  outcome (op a) = Returned r →
  supported method ∧ ∃ resp, net a = Returned resp ∧ r = success_record url resp.
Proof.
  destruct (decide (supported method)) as [Hs|Hs].
  - destruct (operation_supported a Hs) as (verb & json & ->).
    unfold outcome; cbn. destruct (net a); [|done].
    intros [= <-]. eauto.
  - by rewrite operation_unsupported.
Qed.

Lemma operation_count_pacing a : count is_pacing (trace (op a)) = 0.
Proof. by destruct (operation_trace a) as [->|(? & ? & ->)]. Qed.

Lemma operation_count_warning a : count is_warning (trace (op a)) = 0.
Proof. by destruct (operation_trace a) as [->|(? & ? & ->)]. Qed.

Lemma operation_backoffs a : backoffs (trace (op a)) = [].
Proof. by destruct (operation_trace a) as [->|(? & ? & ->)]. Qed.

Lemma operation_count_request a :
  count is_request (trace (op a)) = if decide (supported method) then 1 else 0.
Proof.
  case_decide as Hs.
  - by destruct (operation_supported a Hs) as (verb & json & ->).
  - by rewrite operation_unsupported.
Qed.

(** The loop when the first [m] attempts from [a0] on fail and the next one
    returns. *)
Lemma retry_loop_succeeds m : ∀ todo a0 r,
  (∀ i, i < m → ∃ e, outcome (op (a0 + i)) = Raised e) →
  outcome (op (a0 + m)) = Returned r →
  m < todo →
  (Z.of_nat (a0 + m) < retry_count self)%Z →
  outcome (loop todo a0) = Returned r ∧
  count is_pacing (trace (loop todo a0)) = S m ∧
  count is_request (trace (loop todo a0)) = S m ∧
  ∃ t, trace (loop todo a0) = t ++ trace (op (a0 + m)).
Proof.
  induction m as [|m IH]; intros todo a0 r Hfail Hok Htodo Hrc.
  - destruct todo as [|todo]; [lia|]. rewrite Nat.add_0_r in Hok.
    rewrite (retry_loop_returned todo a0 r Hok). rewrite !trace_mk, !outcome_mk.
    rewrite !count_cons, operation_count_pacing, operation_count_request.
    rewrite Nat.add_0_r. destruct (operation_returned _ _ Hok) as [Hs _].
    rewrite decide_True by done. cbn. repeat split; try done.
    exists [pace a0]. by rewrite Nat.add_0_r.
  - destruct todo as [|todo]; [lia|].
    destruct (Hfail 0) as [e He]; [lia|]. rewrite Nat.add_0_r in He.
    rewrite (retry_loop_retry todo a0 e He) by lia.
    destruct (IH todo (S a0) r) as (Hout & Hp & Hr & t & Ht).
    { intros i Hi. destruct (Hfail (S i)) as [e' He']; [lia|].
      exists e'. by replace (S a0 + i) with (a0 + S i) by lia. }
    { by replace (S a0 + m) with (a0 + S m) by lia. }
    { lia. }
    { lia. }
    rewrite !trace_mk, !outcome_mk.
    rewrite !count_cons, !count_app, !count_cons, Hp, Hr.
    rewrite operation_count_pacing, operation_count_request.
    destruct (operation_returned _ _ Hok) as [Hs _].
    rewrite decide_True by done. cbn. repeat split; try done.
    exists (pace a0 :: trace (op a0) ++ warn a0 e
              :: Sleep Backoff (backoff_delay a0) :: t).
    rewrite Ht. replace (S a0 + m) with (a0 + S m) by lia.
    cbn. f_equal. rewrite <- !app_assoc. reflexivity.
Qed.

(** The loop when every remaining attempt fails and the loop runs up to
    [retry_count]. *)
Lemma retry_loop_exhausted todo : ∀ a0 cause,
  Z.of_nat (a0 + S todo) = retry_count self →
  (∀ i, i ≤ todo → outcome (op (a0 + i)) = Raised (cause (a0 + i))) →
  outcome (loop (S todo) a0) = Returned (error_record url (cause (a0 + todo))) ∧
  count is_pacing (trace (loop (S todo) a0)) = S todo ∧
  count is_warning (trace (loop (S todo) a0)) = S todo ∧
  count is_request (trace (loop (S todo) a0))
    = (if decide (supported method) then S todo else 0) ∧
  backoffs (trace (loop (S todo) a0)) = backoff_delay <$> seq a0 todo ∧
  ∃ t, trace (loop (S todo) a0)
       = t ++ [Log ERROR (FailedAfter url (retry_count self))].
Proof.
  induction todo as [|todo IH]; intros a0 cause Hrc Hfail.
  - pose proof (Hfail 0 (le_n _)) as He. rewrite Nat.add_0_r in He |- *.
    rewrite (retry_loop_give_up 0 a0 _ He) by lia.
    rewrite !trace_mk, !outcome_mk.
    rewrite !count_cons, !count_app, !count_cons.
    rewrite operation_count_pacing, operation_count_warning,
      operation_count_request.
    change (?x :: ?l ++ ?y) with ([x] ++ l ++ y).
    rewrite !backoffs_app, operation_backoffs. cbn.
    repeat split; try done; try (destruct (decide (supported method)); lia).
    exists (pace a0 :: trace (op a0) ++ [warn a0 (cause a0)]).
      cbn. f_equal. by rewrite <- app_assoc.
  - pose proof (Hfail 0 ltac:(lia)) as He. rewrite Nat.add_0_r in He.
    rewrite (retry_loop_retry (S todo) a0 _ He) by lia.
    destruct (IH (S a0) cause) as (Hout & Hp & Hw & Hr & Hb & t & Ht).
    { lia. }
    { intros i Hi. replace (S a0 + i) with (a0 + S i) by lia.
      apply Hfail. lia. }
    rewrite !trace_mk, !outcome_mk.
    rewrite !count_cons, !count_app, !count_cons, Hp, Hw, Hr.
    rewrite operation_count_pacing, operation_count_warning,
      operation_count_request.
    change (?x :: ?l ++ ?y :: ?z :: ?u) with ([x] ++ l ++ [y; z] ++ u).
    rewrite !backoffs_app, operation_backoffs, Hb, Hout.
    replace (S a0 + todo) with (a0 + S todo) by lia.
    split; [done|]. split; [simpl; lia|]. split; [simpl; lia|].
    split; [destruct (decide (supported method)); simpl; lia|].
    split; [reflexivity|].
    exists (pace a0 :: trace (op a0) ++ warn a0 (cause a0)
              :: Sleep Backoff (backoff_delay a0) :: t).
    rewrite Ht. cbn. f_equal. rewrite <- !app_assoc. reflexivity.
Qed.

(** With no iteration left the loop falls through and returns [None]. *)
Lemma retry_loop_falls_through a0 : loop 0 a0 = ([], Returned PNone).
Proof. reflexivity. Qed.

End retry_loop_facts.

(** ** [make_request] as a whole *)

Lemma make_request_eq self net rnd endpoint method :
  method_of endpoint = Returned method →
  make_request self net rnd endpoint =
    retry_loop self net rnd (url_of endpoint) method (headers_of endpoint)
      (params_of endpoint) (data_of endpoint) (Z.to_nat (retry_count self)) 0.
Proof.
  intros Hm. unfold make_request. rewrite Hm. cbn.
  by destruct (retry_loop _ _ _ _ _ _ _ _ _ _) as [t c].
Qed.

Lemma make_request_raises self net rnd endpoint e :
  method_of endpoint = Raised e →
  make_request self net rnd endpoint = ([], Raised e).
Proof. intros Hm. unfold make_request. by rewrite Hm. Qed.

Lemma make_request_no_attempt self net rnd endpoint method :
  method_of endpoint = Returned method →
  (retry_count self ≤ 0)%Z →
  make_request self net rnd endpoint = ([], Returned PNone).
Proof.
  intros Hm Hrc. rewrite (make_request_eq _ _ _ _ _ Hm).
  by replace (Z.to_nat (retry_count self)) with 0 by lia.
Qed.

(** C3.  When the HTTP call of an endpoint with a supported method fails on
    the first [k - 1] attempts and succeeds on attempt [k], with
    [1 <= k <= retry_count], [make_request] returns the record
    [{'url': url, 'status': ..., 'headers': ..., 'data': ...}] filled from that
    attempt's response, the session is called exactly [k] times, and that
    [k]-th call is the last event of the run. *)
Theorem make_request_succeeds_on_attempt_k
    (self : APIAutomation) (net : session) (rnd : nat → Q)
    (endpoint : gmap string pyval) (method : string) (k : nat)
    (resp : response) :
  method_of endpoint = Returned method →
  supported method →
  1 ≤ k →
  (Z.of_nat k ≤ retry_count self)%Z →
  (∀ a, a < k - 1 → ∃ e, net a = Raised e) →
  net (k - 1) = Returned resp →
  outcome (make_request self net rnd endpoint)
    = Returned (PDict {[ "url" := url_of endpoint;
                         "status" := PInt (status resp);
                         "headers" := PDict (PStr <$> headers resp);
                         "data" := PStr (text resp) ]}) ∧
  count is_request (trace (make_request self net rnd endpoint)) = k ∧
  ∃ t verb json,
    trace (make_request self net rnd endpoint)
      = t ++ [Request verb (url_of endpoint) (headers_of endpoint)
                (params_of endpoint) json].
Proof.
  intros Hm Hs Hk Hrc Hfail Hok.
  rewrite (make_request_eq _ _ _ _ _ Hm).
  set (url := url_of endpoint). set (hd := headers_of endpoint).
  set (pa := params_of endpoint). set (da := data_of endpoint).
  assert (Hop : ∀ a, ∃ verb json,
    operation net url method hd pa da a
    = ([Request verb url hd pa json],
       match net a with
       | Returned r => Returned (success_record url r)
       | Raised e => Raised e
       end)) by (intros a; by apply operation_supported).
  destruct (retry_loop_succeeds self net rnd url method hd pa da (k - 1)
              (Z.to_nat (retry_count self)) 0 (success_record url resp))
    as (Hout & _ & Hreq & t & Ht).
  - intros i Hi. destruct (Hfail i Hi) as [e He].
    destruct (Hop i) as (verb & json & Hopi).
    exists e. cbn. by rewrite Hopi, outcome_mk, He.
  - destruct (Hop (k - 1)) as (verb & json & Hopk).
    cbn. by rewrite Hopk, outcome_mk, Hok.
  - lia.
  - lia.
  - split; [done|]. split; [rewrite Hreq; lia|].
    destruct (Hop (k - 1)) as (verb & json & Hopk).
    exists t, verb, json. rewrite Ht. cbn. by rewrite Hopk.
Qed.

Lemma make_request_succeeds_on_attempt_k_witness :
  let self := sample_api 3 in
  let resp := Response 200 ∅ "ok" in
  (method_of sample_endpoint = Returned "GET" ∧ supported "GET" ∧ 1 ≤ 3 ∧
   (Z.of_nat 3 ≤ retry_count self)%Z ∧
   (∀ a, a < 3 - 1 → ∃ e, third_time_lucky a = Raised e) ∧
   third_time_lucky (3 - 1) = Returned resp) ∧
  outcome (make_request self third_time_lucky half sample_endpoint)
    = Returned (PDict {[ "url" := PStr "https://api.example.com/data";
                         "status" := PInt 200;
                         "headers" := PDict ∅;
                         "data" := PStr "ok" ]}) ∧
  count is_request (trace (make_request self third_time_lucky half sample_endpoint)) = 3 ∧
  ∃ t verb json,
    trace (make_request self third_time_lucky half sample_endpoint)
      = t ++ [Request verb (url_of sample_endpoint) (headers_of sample_endpoint)
                (params_of sample_endpoint) json].
Proof.
  assert (H1 : method_of sample_endpoint = Returned "GET") by reflexivity.
  assert (H2 : supported "GET") by (by left).
  assert (H3 : 1 ≤ 3) by lia.
  assert (H4 : (Z.of_nat 3 ≤ retry_count (sample_api 3))%Z) by (simpl; lia).
  assert (H5 : ∀ a, a < 3 - 1 → ∃ e, third_time_lucky a = Raised e).
  { intros a Ha. unfold third_time_lucky. rewrite decide_False by lia. eauto. }
  assert (H6 : third_time_lucky (3 - 1) = Returned (Response 200 ∅ "ok"))
    by reflexivity.
  split; [done|].
  exact (make_request_succeeds_on_attempt_k (sample_api 3) third_time_lucky
           half sample_endpoint "GET" 3 (Response 200 ∅ "ok")
           H1 H2 H3 H4 H5 H6).
Defined.

(** C7 (the code departs from the claim).  With [retry = 0] the loop of
    [make_request] runs no iteration and the function falls off its end: it
    performs nothing and returns [None], neither a success nor an error
    record. *)
Theorem make_request_retry_zero_returns_None (net : session) (rnd : nat → Q) :
  make_request (sample_api 0) net rnd sample_endpoint = ([], Returned PNone).
Proof. reflexivity. Qed.

(** C4, as stated, does not hold: the error record is the same whether one
    attempt or two were made, so no reading of the record gives the number of
    attempts. *)
Lemma error_record_does_not_carry_attempts :
  ¬ ∃ attempts_made : pyval → Z, ∀ retry, retry ∈ [1; 2]%Z →
      ∀ r, outcome (make_request (sample_api retry) always_failing half
                      sample_endpoint) = Returned r →
           attempts_made r = retry.
Proof.
  intros [attempts_made H].
  pose proof (H 1%Z ltac:(repeat constructor) _ eq_refl) as H1.
  pose proof (H 2%Z ltac:(repeat constructor) _ eq_refl) as H2.
  cbv in H1, H2. congruence.
Qed.

(** C4 (amended).  When the operation fails on every attempt and
    [retry_count >= 1], [make_request] returns the record
    [{'url': url, 'error': str(e)}] for the exception [e] of the last attempt;
    [retry_count] attempts were made, each one paced and each one logged as a
    failure (and, for a supported method, each one calling the session once),
    and the number of attempts appears only in the final error log line. *)
Theorem make_request_exhausted
    (self : APIAutomation) (net : session) (rnd : nat → Q)
    (endpoint : gmap string pyval) (method : string) (cause : nat → exn) :
  method_of endpoint = Returned method →
  (1 ≤ retry_count self)%Z →
  (∀ a, (Z.of_nat a < retry_count self)%Z →
        outcome (operation_of net endpoint method a) = Raised (cause a)) →
  outcome (make_request self net rnd endpoint)
    = Returned (PDict {[ "url" := url_of endpoint;
                         "error" := PStr (str (cause (Z.to_nat (retry_count self - 1)))) ]}) ∧
  count is_pacing (trace (make_request self net rnd endpoint))
    = Z.to_nat (retry_count self) ∧
  count is_warning (trace (make_request self net rnd endpoint))
    = Z.to_nat (retry_count self) ∧
  (supported method →
   count is_request (trace (make_request self net rnd endpoint))
   = Z.to_nat (retry_count self)) ∧
  ∃ t, trace (make_request self net rnd endpoint)
       = t ++ [Log ERROR (FailedAfter (url_of endpoint) (retry_count self))].
Proof.
  intros Hm Hrc Hfail.
  rewrite (make_request_eq _ _ _ _ _ Hm).
  destruct (Z.to_nat (retry_count self)) as [|todo] eqn:Htodo; [lia|].
  destruct (retry_loop_exhausted self net rnd (url_of endpoint) method
              (headers_of endpoint) (params_of endpoint) (data_of endpoint)
              todo 0 cause) as (Hout & Hp & Hw & Hr & _ & Ht).
  - lia.
  - intros i Hi. apply Hfail. lia.
  - rewrite Hout, Hp, Hw, Hr.
    replace (Z.to_nat (retry_count self - 1)) with todo by lia.
    repeat split; try done. intros Hs. by rewrite decide_True.
Qed.

Lemma make_request_exhausted_witness :
  let self := sample_api 2 in
  let cause := λ _ : nat, Exn "ClientConnectionError" "connection refused" in
  (method_of sample_endpoint = Returned "GET" ∧
   (1 ≤ retry_count self)%Z ∧
   (∀ a, (Z.of_nat a < retry_count self)%Z →
         outcome (operation_of always_failing sample_endpoint "GET" a)
         = Raised (cause a))) ∧
  outcome (make_request self always_failing half sample_endpoint)
    = Returned (PDict {[ "url" := url_of sample_endpoint;
                         "error" := PStr "connection refused" ]}) ∧
  count is_pacing (trace (make_request self always_failing half sample_endpoint)) = 2 ∧
  count is_warning (trace (make_request self always_failing half sample_endpoint)) = 2 ∧
  (supported "GET" →
   count is_request (trace (make_request self always_failing half sample_endpoint)) = 2) ∧
  ∃ t, trace (make_request self always_failing half sample_endpoint)
       = t ++ [Log ERROR (FailedAfter (url_of sample_endpoint) 2)].
Proof.
  assert (H1 : method_of sample_endpoint = Returned "GET") by reflexivity.
  assert (H2 : (1 ≤ retry_count (sample_api 2))%Z) by (simpl; lia).
  assert (H3 : ∀ a, (Z.of_nat a < retry_count (sample_api 2))%Z →
     outcome (operation_of always_failing sample_endpoint "GET" a)
     = Raised (Exn "ClientConnectionError" "connection refused"))
    by (intros a _; reflexivity).
  split; [done|].
  exact (make_request_exhausted (sample_api 2) always_failing half
           sample_endpoint "GET" _ H1 H2 H3).
Defined.

(** C10.  For an endpoint whose upper-cased method is none of GET, POST, PUT,
    DELETE, and [retry_count >= 1]: the [ValueError] raised inside each
    attempt is caught like any failure.  All [retry_count] attempts are made
    (paced and logged), the backoff delays [2^0 .. 2^(retry_count-2)] are
    slept between them, no request is ever sent, and the result is the error
    record with the unsupported-method message. *)
Theorem unsupported_method_is_retried
    (self : APIAutomation) (net : session) (rnd : nat → Q)
    (endpoint : gmap string pyval) (method : string) :
  method_of endpoint = Returned method →
  ¬ supported method →
  (1 ≤ retry_count self)%Z →
  outcome (make_request self net rnd endpoint)
    = Returned (PDict {[ "url" := url_of endpoint;
                         "error" := PStr ("Unsupported HTTP method: " +:+ method) ]}) ∧
  count is_pacing (trace (make_request self net rnd endpoint))
    = Z.to_nat (retry_count self) ∧
  count is_warning (trace (make_request self net rnd endpoint))
    = Z.to_nat (retry_count self) ∧
  backoffs (trace (make_request self net rnd endpoint))
    = (λ a, inject_Z (2 ^ Z.of_nat a)) <$> seq 0 (Z.to_nat (retry_count self) - 1) ∧
  count is_request (trace (make_request self net rnd endpoint)) = 0.
Proof.
  intros Hm Hs Hrc.
  rewrite (make_request_eq _ _ _ _ _ Hm).
  destruct (Z.to_nat (retry_count self)) as [|todo] eqn:Htodo; [lia|].
  destruct (retry_loop_exhausted self net rnd (url_of endpoint) method
              (headers_of endpoint) (params_of endpoint) (data_of endpoint)
              todo 0
              (λ _, Exn "ValueError" ("Unsupported HTTP method: " +:+ method)))
    as (Hout & Hp & Hw & Hr & Hb & _).
  - lia.
  - intros i _. by rewrite operation_unsupported.
  - rewrite Hout, Hp, Hw, Hr, Hb, decide_False by done.
    replace (S todo - 1) with todo by lia. done.
Qed.

Lemma unsupported_method_is_retried_witness :
  let endpoint : gmap string pyval :=
    {[ "url" := PStr "https://api.example.com/data"; "method" := PStr "patch" ]} in
  let self := sample_api 3 in
  (method_of endpoint = Returned "PATCH" ∧ ¬ supported "PATCH" ∧
   (1 ≤ retry_count self)%Z) ∧
  outcome (make_request self always_failing half endpoint)
    = Returned (PDict {[ "url" := url_of endpoint;
                         "error" := PStr "Unsupported HTTP method: PATCH" ]}) ∧
  count is_pacing (trace (make_request self always_failing half endpoint)) = 3 ∧
  count is_warning (trace (make_request self always_failing half endpoint)) = 3 ∧
  backoffs (trace (make_request self always_failing half endpoint))
    = [inject_Z 1; inject_Z 2] ∧
  count is_request (trace (make_request self always_failing half endpoint)) = 0.
Proof.
  intros endpoint self.
  assert (H1 : method_of endpoint = Returned "PATCH") by reflexivity.
  assert (H2 : ¬ supported "PATCH").
  { intros H. repeat (apply elem_of_cons in H as [H|H]; [discriminate H|]).
    by apply elem_of_nil in H. }
  assert (H3 : (1 ≤ retry_count self)%Z) by (simpl; lia).
  split; [done|].
  exact (unsupported_method_is_retried self always_failing half endpoint
           "PATCH" H1 H2 H3).
Defined.

(** ** Traces of retry loops and the backoff rule *)

Lemma app_cons_eq_split {A} (l1 l2 pre post : list A) (x w : A) :
  l1 ++ x :: l2 = pre ++ w :: post →
  w ∉ l1 →
  (pre = l1 ∧ x = w ∧ post = l2) ∨
  (∃ pre', pre = l1 ++ x :: pre' ∧ l2 = pre' ++ w :: post).
Proof.
  revert pre. induction l1 as [|y l1 IH]; intros pre Heq Hnin.
  - destruct pre as [|p pre]; simplify_eq/=; eauto.
  - destruct pre as [|p pre]; simplify_eq/=.
    + exfalso. apply Hnin. left.
    + destruct (IH pre) as [(-> & -> & ->)|(pre' & -> & ->)]; eauto.
      intros Hin. apply Hnin. by right.
Qed.

Lemma quiet_not_elem t ev : Forall quiet t → quiet ev = false → ev ∉ t.
Proof.
  intros Hq Hev Hin. rewrite Forall_forall in Hq.
  specialize (Hq _ Hin). rewrite Hev in Hq. done.
Qed.

Lemma quiet_backoffs t : Forall quiet t → backoffs t = [].
Proof.
  induction 1 as [|ev t Hev _ IH]; [done|].
  unfold backoffs in *. cbn. rewrite IH.
  by destruct ev as [[] ?| | |[] ?].
Qed.

Lemma retry_trace_after_warning rc a0 t :
  retry_trace rc a0 t →
  ∀ pre a u msg post,
    t = pre ++ Log WARNING (AttemptFailed (S a) u msg) :: post →
    if (Z.of_nat a <? rc - 1)%Z
    then ∃ next_attempt,
           post = Sleep Backoff (backoff_delay a) :: next_attempt ∧
           starts_attempt next_attempt
    else backoffs post = [].
Proof.
  induction 1
    as [a0 t Hq|a0 t u0 msg0 rest Hq Hlt _ IH Hnext|a0 t u0 msg0 cl Hq Hge Hcl];
    intros pre a u msg post Heq.
  - exfalso. eapply (quiet_not_elem t); [done| |].
    2:{ rewrite Heq. apply elem_of_app. right. left. }
    done.
  - apply app_cons_eq_split in Heq; [|by apply quiet_not_elem].
    destruct Heq as [(-> & [= <- <- <-] & ->)|(pre' & -> & Hrest)].
    + apply Z.ltb_lt in Hlt. rewrite Hlt. eauto.
    + destruct pre' as [|p pre']; [done|].
      injection Hrest as <- Hrest. by eapply IH.
  - apply app_cons_eq_split in Heq; [|by apply quiet_not_elem].
    destruct Heq as [(-> & [= <- <- <-] & ->)|(pre' & -> & Hrest)].
    + apply Z.ltb_nlt in Hge. rewrite Hge. by apply quiet_backoffs.
    + exfalso. eapply (quiet_not_elem cl); [done| |].
      2:{ rewrite Hrest. apply elem_of_app. right. left. }
      done.
Qed.

Lemma retry_trace_backoffs rc a0 t :
  retry_trace rc a0 t →
  ∃ m, backoffs t = backoff_delay <$> seq a0 m ∧
       (m = 0 ∨ (Z.of_nat (a0 + m) ≤ rc - 1)%Z).
Proof.
  induction 1
    as [a0 t Hq|a0 t u0 msg0 rest Hq Hlt _ IH Hnext|a0 t u0 msg0 cl Hq Hge Hcl].
  - exists 0. rewrite quiet_backoffs by done. auto.
  - destruct IH as (m & Hm & Hbound). exists (S m).
    rewrite backoffs_app, quiet_backoffs by done. cbn.
    change (backoffs rest) with (backoffs rest). fold (backoffs rest).
    rewrite Hm. split; [done|]. right. lia.
  - exists 0. rewrite backoffs_app, quiet_backoffs by done. cbn.
    fold (backoffs cl). rewrite quiet_backoffs by done. auto.
Qed.

(** A loop that starts at attempt 0 and produces a [retry_trace] obeys the
    backoff rule. *)
Lemma retry_trace_backoff_rule rc t : retry_trace rc 0 t → backoff_rule rc t.
Proof.
  intros Ht. split.
  - intros pre a u msg post Heq.
    exact (retry_trace_after_warning rc 0 t Ht pre a u msg post Heq).
  - destruct (retry_trace_backoffs rc 0 t Ht) as (m & Hm & Hbound).
    exists m. split; [done|]. lia.
Qed.

Lemma retry_loop_starts_attempt self net rnd url method headers params data
    todo a0 :
  starts_attempt
    (trace (retry_loop self net rnd url method headers params data (S todo) a0)).
Proof.
  destruct (outcome (operation net url method headers params data a0))
    as [r|e] eqn:Hop.
  - rewrite (retry_loop_returned _ _ _ _ _ _ _ _ todo a0 r Hop), trace_mk.
    by eexists _, _.
  - destruct (decide (Z.of_nat a0 < retry_count self - 1)%Z) as [Hlt|Hge].
    + rewrite (retry_loop_retry _ _ _ _ _ _ _ _ todo a0 e Hop Hlt), trace_mk.
      by eexists _, _.
    + rewrite (retry_loop_give_up _ _ _ _ _ _ _ _ todo a0 e Hop Hge), trace_mk.
      by eexists _, _.
Qed.

Lemma retry_loop_retry_trace self net rnd url method headers params data :
  ∀ todo a0,
    a0 + todo = Z.to_nat (retry_count self) →
    retry_trace (retry_count self) a0
      (trace (retry_loop self net rnd url method headers params data todo a0)).
Proof.
  induction todo as [|todo IH]; intros a0 Hinv.
  - apply retry_trace_quiet. constructor.
  - assert (Hq : Forall quiet
      (Sleep Pacing (uniform (delay_range self).1 (delay_range self).2 (rnd a0))
       :: trace (operation net url method headers params data a0))).
    { constructor; [done|].
      by destruct (operation_trace net url method headers params data a0)
        as [->|(? & ? & ->)]; repeat constructor. }
    destruct (outcome (operation net url method headers params data a0))
      as [r|e] eqn:Hop.
    + rewrite (retry_loop_returned _ _ _ _ _ _ _ _ todo a0 r Hop), trace_mk.
      by apply retry_trace_quiet.
    + destruct (decide (Z.of_nat a0 < retry_count self - 1)%Z) as [Hlt|Hge].
      * rewrite (retry_loop_retry _ _ _ _ _ _ _ _ todo a0 e Hop Hlt), trace_mk.
        rewrite app_comm_cons. apply retry_trace_retry; [done..| |].
        { apply IH. lia. }
        destruct todo as [|todo']; [lia|]. apply retry_loop_starts_attempt.
      * rewrite (retry_loop_give_up _ _ _ _ _ _ _ _ todo a0 e Hop Hge), trace_mk.
        rewrite app_comm_cons. apply retry_trace_give_up; [done..|].
        by repeat constructor.
Qed.

(** The loop when the attempts from [a0] to [a0 + m] fail: the failure of
    attempt [a0 + m] is reported after [m] earlier reports, and the report is
    followed by the backoff sleep and the next attempt, or, when the attempt
    was the last one, by the closing error line alone. *)
Lemma retry_loop_failure_reported self net rnd url method headers params data
    (cause : nat → exn) m :
  ∀ todo a0,
    (∀ i, i ≤ m →
       outcome (operation net url method headers params data (a0 + i))
       = Raised (cause (a0 + i))) →
    a0 + todo = Z.to_nat (retry_count self) →
    m < todo →
    ∃ pre post,
      trace (retry_loop self net rnd url method headers params data todo a0)
      = pre ++ Log WARNING (AttemptFailed (S (a0 + m)) url (str (cause (a0 + m))))
          :: post ∧
      count is_warning pre = m ∧
      if (Z.of_nat (a0 + m) <? retry_count self - 1)%Z
      then ∃ next_attempt,
             post = Sleep Backoff (backoff_delay (a0 + m)) :: next_attempt ∧
             starts_attempt next_attempt
      else post = [Log ERROR (FailedAfter url (retry_count self))].
Proof.
  induction m as [|m IH]; intros todo a0 Hfail Hinv Hm.
  - destruct todo as [|todo]; [lia|].
    pose proof (Hfail 0 (le_n _)) as He. rewrite Nat.add_0_r in He |- *.
    destruct (decide (Z.of_nat a0 < retry_count self - 1)%Z) as [Hlt|Hge].
    + rewrite (retry_loop_retry _ _ _ _ _ _ _ _ todo a0 _ He Hlt), trace_mk.
      eexists (_ :: _), _. split; [reflexivity|].
      rewrite count_cons, operation_count_warning. split; [done|].
      rewrite (proj2 (Z.ltb_lt _ _) Hlt). eexists. split; [reflexivity|].
      destruct todo as [|todo']; [lia|]. apply retry_loop_starts_attempt.
    + rewrite (retry_loop_give_up _ _ _ _ _ _ _ _ todo a0 _ He Hge), trace_mk.
      eexists (_ :: _), _. split; [reflexivity|].
      rewrite count_cons, operation_count_warning. split; [done|].
      by apply Z.ltb_nlt in Hge as ->.
  - destruct todo as [|todo]; [lia|].
    pose proof (Hfail 0 ltac:(lia)) as He. rewrite Nat.add_0_r in He.
    rewrite (retry_loop_retry _ _ _ _ _ _ _ _ todo a0 _ He) by lia.
    destruct (IH todo (S a0)) as (pre & post & Ht & Hw & Hpost).
    { intros i Hi. replace (S a0 + i) with (a0 + S i) by lia. apply Hfail. lia. }
    { lia. }
    { lia. }
    replace (S a0 + m) with (a0 + S m) in Ht, Hpost by lia.
    rewrite trace_mk, Ht.
    exists (Sleep Pacing (uniform (delay_range self).1 (delay_range self).2 (rnd a0))
              :: trace (operation net url method headers params data a0)
              ++ Log WARNING (AttemptFailed (S a0) url (str (cause a0)))
              :: Sleep Backoff (backoff_delay a0) :: pre), post.
    split; [cbn; f_equal; by rewrite <- app_assoc|].
    rewrite !count_cons, !count_app, !count_cons, operation_count_warning, Hw.
    split; [done|]. exact Hpost.
Qed.

Section static_loop_facts.
Context (self : web_scraper.WebScraper) (www : web_scraper.web).
Context (pick : nat → nat) (url : string).

Local Abbreviation sbody := (web_scraper.static_body self www pick url).
Local Abbreviation sloop := (web_scraper.static_loop self www pick url).
Local Abbreviation get a :=
  (Fetch (PStr url) (web_scraper.pick_proxy self (pick a))).
Local Abbreviation swarn a e := (Log WARNING (AttemptFailed (S a) (PStr url) (str e))).

Lemma static_body_eq a :
  sbody a = ([get a],
             match www a with
             | Returned pg => Returned (PDict (web_scraper.extract self pg))
             | Raised e => Raised e
             end).
Proof. unfold web_scraper.static_body. cbn. by destruct (www a). Qed.

Lemma static_loop_returned todo a pg :
  www a = Returned pg →
  sloop (S todo) a = ([get a], Returned (PDict (web_scraper.extract self pg))).
Proof.
  intros Hw. cbn [web_scraper.static_loop]. by rewrite static_body_eq, Hw.
Qed.

Lemma static_loop_retry todo a e :
  www a = Raised e →
  (Z.of_nat a < web_scraper.retry_count self - 1)%Z →
  sloop (S todo) a =
    (get a :: swarn a e :: Sleep Backoff (backoff_delay a)
       :: trace (sloop todo (S a)),
     outcome (sloop todo (S a))).
Proof.
  intros Hw Hlt. cbn [web_scraper.static_loop]. rewrite static_body_eq, Hw.
  apply Z.ltb_lt in Hlt. unfold try_except. cbn. rewrite Hlt. cbn.
  unfold trace, outcome. by destruct (sloop todo (S a)) as [t c].
Qed.

Lemma static_loop_give_up todo a e :
  www a = Raised e →
  ¬ (Z.of_nat a < web_scraper.retry_count self - 1)%Z →
  sloop (S todo) a =
    ([get a; swarn a e;
      Log ERROR (FailedAfter (PStr url) (web_scraper.retry_count self))],
     Raised e).
Proof.
  intros Hw Hge. cbn [web_scraper.static_loop]. rewrite static_body_eq, Hw.
  apply Z.ltb_nlt in Hge. unfold try_except. cbn. by rewrite Hge.
Qed.

Lemma static_loop_starts_attempt todo a0 :
  starts_attempt (trace (sloop (S todo) a0)).
Proof.
  destruct (www a0) as [pg|e] eqn:Hw.
  - rewrite (static_loop_returned todo a0 pg Hw), trace_mk. by eexists _, _.
  - destruct (decide (Z.of_nat a0 < web_scraper.retry_count self - 1)%Z)
      as [Hlt|Hge].
    + rewrite (static_loop_retry todo a0 e Hw Hlt), trace_mk. by eexists _, _.
    + rewrite (static_loop_give_up todo a0 e Hw Hge), trace_mk. by eexists _, _.
Qed.

Lemma static_loop_retry_trace :
  ∀ todo a0,
    a0 + todo = Z.to_nat (web_scraper.retry_count self) →
    retry_trace (web_scraper.retry_count self) a0 (trace (sloop todo a0)).
Proof.
  induction todo as [|todo IH]; intros a0 Hinv.
  - apply retry_trace_quiet. constructor.
  - destruct (www a0) as [pg|e] eqn:Hw.
    + rewrite (static_loop_returned todo a0 pg Hw), trace_mk.
      apply retry_trace_quiet. by repeat constructor.
    + destruct (decide (Z.of_nat a0 < web_scraper.retry_count self - 1)%Z)
        as [Hlt|Hge].
      * rewrite (static_loop_retry todo a0 e Hw Hlt), trace_mk.
        apply (retry_trace_retry _ a0 [get a0]); [by repeat constructor|done| |].
        { apply IH. lia. }
        destruct todo as [|todo']; [lia|]. apply static_loop_starts_attempt.
      * rewrite (static_loop_give_up todo a0 e Hw Hge), trace_mk.
        apply (retry_trace_give_up _ a0 [get a0]); [|done|];
          by repeat constructor.
Qed.

(** When every attempt fails, [scrape_static] makes them all and then lets
    the last exception out. *)
Lemma static_loop_exhausted todo : ∀ a0 cause,
  Z.of_nat (a0 + S todo) = web_scraper.retry_count self →
  (∀ i, i ≤ todo → www (a0 + i) = Raised (cause (a0 + i))) →
  outcome (sloop (S todo) a0) = Raised (cause (a0 + todo)) ∧
  count is_call (trace (sloop (S todo) a0)) = S todo.
Proof.
  induction todo as [|todo IH]; intros a0 cause Hrc Hfail.
  - pose proof (Hfail 0 (le_n _)) as He. rewrite Nat.add_0_r in He |- *.
    by rewrite (static_loop_give_up 0 a0 _ He) by lia.
  - pose proof (Hfail 0 ltac:(lia)) as He. rewrite Nat.add_0_r in He.
    rewrite (static_loop_retry (S todo) a0 _ He) by lia.
    destruct (IH (S a0) cause) as (Hout & Hc).
    { lia. }
    { intros i Hi. replace (S a0 + i) with (a0 + S i) by lia.
      apply Hfail. lia. }
    rewrite trace_mk, outcome_mk, Hout, !count_cons, Hc.
    replace (S a0 + todo) with (a0 + S todo) by lia. done.
Qed.

Lemma static_loop_exhausted_backoffs todo : ∀ a0 cause,
  Z.of_nat (a0 + S todo) = web_scraper.retry_count self →
  (∀ i, i ≤ todo → www (a0 + i) = Raised (cause (a0 + i))) →
  backoffs (trace (sloop (S todo) a0)) = backoff_delay <$> seq a0 todo.
Proof.
  induction todo as [|todo IH]; intros a0 cause Hrc Hfail.
  - pose proof (Hfail 0 (le_n _)) as He. rewrite Nat.add_0_r in He.
    by rewrite (static_loop_give_up 0 a0 _ He) by lia.
  - pose proof (Hfail 0 ltac:(lia)) as He. rewrite Nat.add_0_r in He.
    rewrite (static_loop_retry (S todo) a0 _ He) by lia.
    rewrite trace_mk.
    change (?x :: ?y :: ?z :: ?u) with ([x; y; z] ++ u).
    rewrite backoffs_app, (IH (S a0) cause); [done|lia|].
    intros i Hi. replace (S a0 + i) with (a0 + S i) by lia. apply Hfail. lia.
Qed.

(** The counterpart of [retry_loop_failure_reported] for [scrape_static]. *)
Lemma static_loop_failure_reported (cause : nat → exn) m :
  ∀ todo a0,
    (∀ i, i ≤ m → www (a0 + i) = Raised (cause (a0 + i))) →
    a0 + todo = Z.to_nat (web_scraper.retry_count self) →
    m < todo →
    ∃ pre post,
      trace (sloop todo a0) = pre ++ swarn (a0 + m) (cause (a0 + m)) :: post ∧
      count is_warning pre = m ∧
      if (Z.of_nat (a0 + m) <? web_scraper.retry_count self - 1)%Z
      then ∃ next_attempt,
             post = Sleep Backoff (backoff_delay (a0 + m)) :: next_attempt ∧
             starts_attempt next_attempt
      else post = [Log ERROR (FailedAfter (PStr url) (web_scraper.retry_count self))].
Proof.
  induction m as [|m IH]; intros todo a0 Hfail Hinv Hm.
  - destruct todo as [|todo]; [lia|].
    pose proof (Hfail 0 (le_n _)) as He. rewrite Nat.add_0_r in He |- *.
    destruct (decide (Z.of_nat a0 < web_scraper.retry_count self - 1)%Z)
      as [Hlt|Hge].
    + rewrite (static_loop_retry todo a0 _ He Hlt), trace_mk.
      exists [get a0]. eexists. split; [reflexivity|]. split; [done|].
      rewrite (proj2 (Z.ltb_lt _ _) Hlt). eexists. split; [reflexivity|].
      destruct todo as [|todo']; [lia|]. apply static_loop_starts_attempt.
    + rewrite (static_loop_give_up todo a0 _ He Hge), trace_mk.
      exists [get a0]. eexists. split; [reflexivity|]. split; [done|].
      by apply Z.ltb_nlt in Hge as ->.
  - destruct todo as [|todo]; [lia|].
    pose proof (Hfail 0 ltac:(lia)) as He. rewrite Nat.add_0_r in He.
    rewrite (static_loop_retry todo a0 _ He) by lia.
    destruct (IH todo (S a0)) as (pre & post & Ht & Hw & Hpost).
    { intros i Hi. replace (S a0 + i) with (a0 + S i) by lia. apply Hfail. lia. }
    { lia. }
    { lia. }
    replace (S a0 + m) with (a0 + S m) in Ht, Hpost by lia.
    rewrite trace_mk, Ht.
    exists (get a0 :: swarn a0 (cause a0) :: Sleep Backoff (backoff_delay a0) :: pre),
      post.
    split; [done|]. rewrite !count_cons, Hw. split; [done|]. exact Hpost.
Qed.

End static_loop_facts.

(** C6.  In [make_request] and in [scrape_static] a failed attempt is
    followed by a sleep of exactly [2^a], [a] being its number from 0, unless
    it was the last attempt.
    - When the attempts [0 .. a] raise, with [a < retry_count], the failure
      of attempt [a] is reported (after the [a] reports of the earlier ones);
      for [a <= retry_count - 2] the report is followed at once by a sleep of
      [2^a] and then by the next attempt, and for the last attempt by the
      closing error line and no sleep.
    - When all [retry_count >= 1] attempts raise, the backoff sleeps of the
      run are [2^0, ..., 2^(retry_count - 2)], in this order.
    - Whatever the outside world does, every report of a failed attempt in
      the trace is followed in this way, and the backoff sleeps of the run are
      [2^0, 2^1, ...], at most [retry_count - 1] of them. *)
Theorem backoff_is_two_to_the_attempt
    (self : APIAutomation) (net : session) (rnd : nat → Q)
    (endpoint : gmap string pyval)
    (scraper : web_scraper.WebScraper) (www : web_scraper.web)
    (pick : nat → nat) (url : string) :
  (∀ method cause a,
     method_of endpoint = Returned method →
     (Z.of_nat a < retry_count self)%Z →
     (∀ i, i ≤ a →
        outcome (operation_of net endpoint method i) = Raised (cause i)) →
     ∃ pre post,
       trace (make_request self net rnd endpoint)
       = pre ++ Log WARNING
                  (AttemptFailed (S a) (url_of endpoint) (str (cause a)))
           :: post ∧
       count is_warning pre = a ∧
       if (Z.of_nat a <? retry_count self - 1)%Z
       then ∃ next_attempt,
              post = Sleep Backoff (inject_Z (2 ^ Z.of_nat a)) :: next_attempt ∧
              starts_attempt next_attempt
       else post = [Log ERROR (FailedAfter (url_of endpoint) (retry_count self))]) ∧
  (∀ cause a,
     (Z.of_nat a < web_scraper.retry_count scraper)%Z →
     (∀ i, i ≤ a → www i = Raised (cause i)) →
     ∃ pre post,
       trace (web_scraper.scrape_static scraper www pick url)
       = pre ++ Log WARNING (AttemptFailed (S a) (PStr url) (str (cause a)))
           :: post ∧
       count is_warning pre = a ∧
       if (Z.of_nat a <? web_scraper.retry_count scraper - 1)%Z
       then ∃ next_attempt,
              post = Sleep Backoff (inject_Z (2 ^ Z.of_nat a)) :: next_attempt ∧
              starts_attempt next_attempt
       else post = [Log ERROR (FailedAfter (PStr url)
                                 (web_scraper.retry_count scraper))]) ∧
  (∀ method cause,
     method_of endpoint = Returned method →
     (1 ≤ retry_count self)%Z →
     (∀ a, (Z.of_nat a < retry_count self)%Z →
        outcome (operation_of net endpoint method a) = Raised (cause a)) →
     backoffs (trace (make_request self net rnd endpoint))
     = (λ a, inject_Z (2 ^ Z.of_nat a))
         <$> seq 0 (Z.to_nat (retry_count self) - 1)) ∧
  (∀ cause,
     (1 ≤ web_scraper.retry_count scraper)%Z →
     (∀ a, (Z.of_nat a < web_scraper.retry_count scraper)%Z →
        www a = Raised (cause a)) →
     backoffs (trace (web_scraper.scrape_static scraper www pick url))
     = (λ a, inject_Z (2 ^ Z.of_nat a))
         <$> seq 0 (Z.to_nat (web_scraper.retry_count scraper) - 1)) ∧
  backoff_rule (retry_count self)
    (trace (make_request self net rnd endpoint)) ∧
  backoff_rule (web_scraper.retry_count scraper)
    (trace (web_scraper.scrape_static scraper www pick url)).
Proof.
  split; [|split; [|split; [|split; [|split]]]].
  - intros method cause a Hm Ha Hfail.
    rewrite (make_request_eq _ _ _ _ _ Hm).
    exact (retry_loop_failure_reported self net rnd (url_of endpoint) method
             (headers_of endpoint) (params_of endpoint) (data_of endpoint)
             cause a (Z.to_nat (retry_count self)) 0 Hfail eq_refl ltac:(lia)).
  - intros cause a Ha Hfail.
    exact (static_loop_failure_reported scraper www pick url cause a
             (Z.to_nat (web_scraper.retry_count scraper)) 0 Hfail eq_refl
             ltac:(lia)).
  - intros method cause Hm Hrc Hfail.
    rewrite (make_request_eq _ _ _ _ _ Hm).
    destruct (Z.to_nat (retry_count self)) as [|todo] eqn:Htodo; [lia|].
    destruct (retry_loop_exhausted self net rnd (url_of endpoint) method
                (headers_of endpoint) (params_of endpoint) (data_of endpoint)
                todo 0 cause) as (_ & _ & _ & _ & Hb & _).
    + lia.
    + intros i Hi. apply Hfail. lia.
    + rewrite Hb. by replace (S todo - 1) with todo by lia.
  - intros cause Hrc Hfail. unfold web_scraper.scrape_static.
    destruct (Z.to_nat (web_scraper.retry_count scraper)) as [|todo] eqn:Htodo;
      [lia|].
    rewrite (static_loop_exhausted_backoffs scraper www pick url todo 0 cause).
    + by replace (S todo - 1) with todo by lia.
    + lia.
    + intros i Hi. apply Hfail. lia.
  - apply retry_trace_backoff_rule.
    destruct (method_of endpoint) as [method|e] eqn:Hm.
    + rewrite (make_request_eq _ _ _ _ _ Hm). by apply retry_loop_retry_trace.
    + rewrite (make_request_raises _ _ _ _ _ Hm). apply retry_trace_quiet.
      constructor.
  - apply retry_trace_backoff_rule. by apply static_loop_retry_trace.
Qed.

Lemma backoff_is_two_to_the_attempt_witness :
  let self := sample_api 3 in
  let scraper := sample_scraper 3 in
  let refused := λ _ : nat, Exn "ClientConnectionError" "connection refused" in
  let gone := λ _ : nat, Exn "HTTPError" "404 Client Error: Not Found" in
  let api_run := trace (make_request self always_failing half sample_endpoint) in
  let page_run :=
    trace (web_scraper.scrape_static scraper not_found (λ _, 0)
             "https://example.com") in
  (method_of sample_endpoint = Returned "GET" ∧
   (Z.of_nat 1 < retry_count self)%Z ∧
   (1 ≤ retry_count self)%Z ∧
   (∀ a, outcome (operation_of always_failing sample_endpoint "GET" a)
         = Raised (refused a)) ∧
   (Z.of_nat 2 < web_scraper.retry_count scraper)%Z ∧
   (1 ≤ web_scraper.retry_count scraper)%Z ∧
   (∀ a, not_found a = Raised (gone a))) ∧
  (∃ pre post,
     api_run
     = pre ++ Log WARNING
                (AttemptFailed 2 (url_of sample_endpoint) "connection refused")
         :: post ∧
     count is_warning pre = 1 ∧
     ∃ next_attempt,
       post = Sleep Backoff (inject_Z 2) :: next_attempt ∧
       starts_attempt next_attempt) ∧
  (∃ pre post,
     page_run
     = pre ++ Log WARNING
                (AttemptFailed 3 (PStr "https://example.com")
                   "404 Client Error: Not Found")
         :: post ∧
     count is_warning pre = 2 ∧
     post = [Log ERROR (FailedAfter (PStr "https://example.com") 3)]) ∧
  backoffs api_run = [inject_Z 1; inject_Z 2] ∧
  backoffs page_run = [inject_Z 1; inject_Z 2].
Proof.
  intros self scraper refused gone api_run page_run.
  assert (H1 : method_of sample_endpoint = Returned "GET") by reflexivity.
  assert (H2 : (Z.of_nat 1 < retry_count self)%Z) by (simpl; lia).
  assert (H3 : (1 ≤ retry_count self)%Z) by (simpl; lia).
  assert (H4 : ∀ a, outcome (operation_of always_failing sample_endpoint "GET" a)
                    = Raised (refused a)) by (intros a; reflexivity).
  assert (H5 : (Z.of_nat 2 < web_scraper.retry_count scraper)%Z) by (simpl; lia).
  assert (H6 : (1 ≤ web_scraper.retry_count scraper)%Z) by (simpl; lia).
  assert (H7 : ∀ a, not_found a = Raised (gone a)) by (intros a; reflexivity).
  split; [done|].
  destruct (backoff_is_two_to_the_attempt self always_failing half
              sample_endpoint scraper not_found (λ _, 0) "https://example.com")
    as (Hapi & Hpage & Hall & Hall' & _ & _).
  split; [exact (Hapi "GET" refused 1 H1 H2 (λ i _, H4 i))|].
  split; [exact (Hpage gone 2 H5 (λ i _, H7 i))|].
  split; [exact (Hall "GET" refused H1 H3 (λ a _, H4 a))|].
  exact (Hall' gone H6 (λ a _, H7 a)).
Defined.

(** ** Pacing *)

Section pacing_facts.
Context (self : APIAutomation) (net : session) (rnd : nat → Q).
Context (url : pyval) (method : string) (headers params data : pyval).

Local Abbreviation op := (operation net url method headers params data).
Local Abbreviation loop := (retry_loop self net rnd url method headers params data).
Local Abbreviation pace a :=
  (Sleep Pacing (uniform (delay_range self).1 (delay_range self).2 (rnd a))).

Lemma retry_loop_no_call :
  ¬ supported method →
  ∀ todo a0, Forall (λ ev, is_call ev = false) (trace (loop todo a0)).
Proof.
  intros Hs. induction todo as [|todo IH]; intros a0; [constructor|].
  pose proof (operation_unsupported net url method headers params data a0 Hs)
    as Hop.
  assert (Hout : outcome (op a0)
    = Raised (Exn "ValueError" ("Unsupported HTTP method: " +:+ method)))
    by (by rewrite Hop).
  destruct (decide (Z.of_nat a0 < retry_count self - 1)%Z) as [Hlt|Hge].
  - rewrite (retry_loop_retry _ _ _ _ _ _ _ _ todo a0 _ Hout Hlt), trace_mk, Hop.
    repeat constructor. apply IH.
  - rewrite (retry_loop_give_up _ _ _ _ _ _ _ _ todo a0 _ Hout Hge), trace_mk, Hop.
    by repeat constructor.
Qed.

Lemma retry_loop_paced :
  supported method →
  ∀ todo a0 pre ev post,
    trace (loop todo a0) = pre ++ ev :: post →
    is_call ev →
    ∃ pre', pre = pre' ++ [pace (a0 + count is_call pre')].
Proof.
  intros Hs. induction todo as [|todo IH]; intros a0 pre ev post Heq Hev.
  - by destruct pre.
  - destruct (operation_supported net url method headers params data a0 Hs)
      as (verb & json & Hop).
    assert (Hshape : ∃ tail,
      trace (loop (S todo) a0)
        = pace a0 :: Request verb url headers params json :: tail ∧
      (tail = [] ∨
       (∃ w, tail = [Log WARNING w; Log ERROR (FailedAfter url (retry_count self))]) ∨
       (∃ w, tail = Log WARNING w :: Sleep Backoff (backoff_delay a0)
                      :: trace (loop todo (S a0))))).
    { destruct (outcome (op a0)) as [r|e] eqn:Hout.
      - rewrite (retry_loop_returned _ _ _ _ _ _ _ _ todo a0 r Hout), trace_mk, Hop.
        eauto.
      - destruct (decide (Z.of_nat a0 < retry_count self - 1)%Z) as [Hlt|Hge].
        + rewrite (retry_loop_retry _ _ _ _ _ _ _ _ todo a0 e Hout Hlt),
            trace_mk, Hop. eexists; split; [reflexivity|]. eauto.
        + rewrite (retry_loop_give_up _ _ _ _ _ _ _ _ todo a0 e Hout Hge),
            trace_mk, Hop. eexists; split; [reflexivity|]. eauto. }
    destruct Hshape as (tail & Ht & Htail). rewrite Ht in Heq. clear Ht Hop.
    destruct pre as [|p1 [|p2 pre2]].
    + injection Heq as <- _. done.
    + injection Heq as <- <- _. exists []. cbn. by rewrite Nat.add_0_r.
    + injection Heq as <- <- Heq.
      destruct Htail as [->|[[w ->]|[w ->]]].
      * by destruct pre2.
      * destruct pre2 as [|x [|y [|z pre3]]]; simplify_eq/=; done.
      * destruct pre2 as [|x [|y pre3]]; [simplify_eq/=; done..|].
        injection Heq as <- <- Heq.
        destruct (IH (S a0) pre3 ev post) as [pre' ->]; [done..|].
        exists (pace a0 :: Request verb url headers params json
                  :: Log WARNING w :: Sleep Backoff (backoff_delay a0) :: pre').
        rewrite !count_cons. cbn [is_call].
        by replace (a0 + (0 + (1 + (0 + (0 + count is_call pre')))))
          with (S a0 + count is_call pre') by lia.
Qed.

End pacing_facts.

Lemma uniform_between (lo hi r : Q) :
  (lo <= hi)%Q → (0 <= r)%Q → (r <= 1)%Q →
  (lo <= uniform lo hi r)%Q ∧ (uniform lo hi r <= hi)%Q.
Proof. intros Hlh H0 H1. unfold uniform. split; nra. Qed.

Lemma fetch_loop_no_pacing self www url :
  ∀ todo a0,
    count is_pacing (trace (web_scraper.fetch_loop self www url todo a0)) = 0.
Proof.
  induction todo as [|todo IH]; intros a0; [done|].
  cbn [web_scraper.fetch_loop]. unfold web_scraper.fetch_body. cbn.
  destruct (www a0) as [pg|e]; cbn; [done|].
  destruct (Z.of_nat a0 <? web_scraper.retry_count self - 1)%Z; cbn; [|done].
  specialize (IH (S a0)).
  destruct (web_scraper.fetch_loop self www url todo (S a0)) as [t c].
  by rewrite trace_mk in *.
Qed.

(** C9, as stated, does not hold for every unit: the [fetch] of
    [scrape_async] calls the site without any pacing sleep before it. *)
Lemma fetch_is_not_paced :
  ¬ ∃ delay,
      paced_by delay
        (trace (web_scraper.fetch (sample_scraper 3) blank_page "https://example.com")).
Proof.
  intros [delay H].
  destruct (H [] (Fetch (PStr "https://example.com") None) [] eq_refl I)
    as [pre' Hpre].
  by destruct pre'.
Qed.

(** C9 (amended).  In [make_request], every call of the session, on the
    first attempt and on retries alike, comes right after a pacing sleep whose
    duration is [random.uniform] of the bounds of [delay_range] for that
    attempt's draw; the duration lies between the bounds when they are in
    order.  The [fetch] of [scrape_async] sleeps no pacing delay at all. *)
Theorem make_request_paces_every_attempt
    (self : APIAutomation) (net : session) (rnd : nat → Q)
    (endpoint : gmap string pyval)
    (scraper : web_scraper.WebScraper) (www : web_scraper.web) (url : string) :
  let lo := (delay_range self).1 in
  let hi := (delay_range self).2 in
  paced_by (λ a, uniform lo hi (rnd a))
    (trace (make_request self net rnd endpoint)) ∧
  ((lo <= hi)%Q → ∀ a, (0 <= rnd a)%Q → (rnd a <= 1)%Q →
     (lo <= uniform lo hi (rnd a))%Q ∧ (uniform lo hi (rnd a) <= hi)%Q) ∧
  count is_pacing (trace (web_scraper.fetch scraper www url)) = 0.
Proof.
  intros lo hi. split; [|split].
  - intros pre ev post Heq Hev.
    destruct (method_of endpoint) as [method|e] eqn:Hm.
    + rewrite (make_request_eq _ _ _ _ _ Hm) in Heq.
      destruct (decide (supported method)) as [Hs|Hs].
      * destruct (retry_loop_paced self net rnd _ _ _ _ _ Hs _ 0 pre ev post Heq Hev)
          as [pre' ->].
        by exists pre'.
      * exfalso.
        pose proof (retry_loop_no_call self net rnd (url_of endpoint) method
          (headers_of endpoint) (params_of endpoint) (data_of endpoint) Hs
          (Z.to_nat (retry_count self)) 0) as Hno.
        rewrite Heq, Forall_app, Forall_cons in Hno.
        destruct Hno as (_ & Hno & _). by rewrite Hno in Hev.
    + rewrite (make_request_raises _ _ _ _ _ Hm) in Heq. by destruct pre.
  - intros Hlh a H0 H1. by apply uniform_between.
  - apply fetch_loop_no_pacing.
Qed.

Lemma make_request_paces_every_attempt_witness :
  let self := sample_api 3 in
  let run := make_request self third_time_lucky half sample_endpoint in
  paced_by (λ a, uniform 1 3 (half a)) (trace run) ∧
  ((1 <= 3)%Q → ∀ a, (0 <= half a)%Q → (half a <= 1)%Q →
     (1 <= uniform 1 3 (half a))%Q ∧ (uniform 1 3 (half a) <= 3)%Q) ∧
  count is_pacing
    (trace (web_scraper.fetch (sample_scraper 3) blank_page "https://example.com")) = 0.
Proof.
  exact (make_request_paces_every_attempt (sample_api 3) third_time_lucky half
           sample_endpoint (sample_scraper 3) blank_page "https://example.com").
Defined.

(** ** Containment of faults *)

Lemma retry_loop_contained self net rnd url method headers params data todo :
  ∀ a0,
    Z.of_nat (a0 + S todo) = retry_count self →
    (∃ a resp,
       net a = Returned resp ∧
       outcome (retry_loop self net rnd url method headers params data (S todo) a0)
       = Returned (success_record url resp)) ∨
    (∃ a e,
       outcome (operation net url method headers params data a) = Raised e ∧
       outcome (retry_loop self net rnd url method headers params data (S todo) a0)
       = Returned (error_record url e)).
Proof.
  induction todo as [|todo IH]; intros a0 Hrc.
  - destruct (outcome (operation net url method headers params data a0))
      as [r|e] eqn:Hop.
    + rewrite (retry_loop_returned _ _ _ _ _ _ _ _ 0 a0 r Hop), outcome_mk.
      destruct (operation_returned _ _ _ _ _ _ _ _ Hop) as (_ & resp & Hn & ->).
      left. eauto.
    + rewrite (retry_loop_give_up _ _ _ _ _ _ _ _ 0 a0 e Hop), outcome_mk by lia.
      right. eauto.
  - destruct (outcome (operation net url method headers params data a0))
      as [r|e] eqn:Hop.
    + rewrite (retry_loop_returned _ _ _ _ _ _ _ _ (S todo) a0 r Hop), outcome_mk.
      destruct (operation_returned _ _ _ _ _ _ _ _ Hop) as (_ & resp & Hn & ->).
      left. eauto.
    + rewrite (retry_loop_retry _ _ _ _ _ _ _ _ (S todo) a0 e Hop), outcome_mk
        by lia.
      apply IH. lia.
Qed.

(** C2, as stated, does not hold for every unit executor: [scrape_static]
    lets the exception of its last attempt out to its caller. *)
Lemma scrape_static_raises :
  ¬ ∃ r, outcome (web_scraper.scrape_static (sample_scraper 1) not_found
                    (λ _, 0) "https://example.com") = Returned r.
Proof. intros [r Hr]. discriminate Hr. Qed.

(** C2 (amended).  In [make_request], an instance of [Exception] that the
    operation raises during an attempt is caught inside the unit executor and
    treated as that attempt's failure.  When the attempts [0 .. a] raise, with
    [a < retry_count]: the exception of attempt [a] is reported by the warning
    line of that attempt; if [a] was the last attempt the caller receives the
    record [{'url': url, 'error': str(e)}] of that exception, and if the next
    attempt's call returns (supported method) the caller receives the record
    [{'url': ..., 'status': ..., 'headers': ..., 'data': ...}] of its
    response: in either case a record and no exception.  [scrape_static]
    catches the exception of each attempt too, but when all
    [retry_count >= 1] attempts have failed it raises the exception of the
    last one to its caller. *)
Theorem faults_contained_in_make_request_not_in_scrape_static
    (self : APIAutomation) (net : session) (rnd : nat → Q)
    (endpoint : gmap string pyval) (method : string)
    (scraper : web_scraper.WebScraper) (www : web_scraper.web)
    (pick : nat → nat) (url : string) :
  method_of endpoint = Returned method →
  (∀ cause a,
     (Z.of_nat a < retry_count self)%Z →
     (∀ i, i ≤ a →
        outcome (operation_of net endpoint method i) = Raised (cause i)) →
     Log WARNING (AttemptFailed (S a) (url_of endpoint) (str (cause a)))
       ∈ trace (make_request self net rnd endpoint) ∧
     (Z.of_nat a = (retry_count self - 1)%Z →
        outcome (make_request self net rnd endpoint)
        = Returned (PDict {[ "url" := url_of endpoint;
                             "error" := PStr (str (cause a)) ]})) ∧
     (∀ resp,
        (Z.of_nat a < retry_count self - 1)%Z →
        supported method →
        net (S a) = Returned resp →
        outcome (make_request self net rnd endpoint)
        = Returned (PDict {[ "url" := url_of endpoint;
                             "status" := PInt (status resp);
                             "headers" := PDict (PStr <$> headers resp);
                             "data" := PStr (text resp) ]}))) ∧
  (∀ cause,
     (1 ≤ web_scraper.retry_count scraper)%Z →
     (∀ a, (Z.of_nat a < web_scraper.retry_count scraper)%Z →
           www a = Raised (cause a)) →
     outcome (web_scraper.scrape_static scraper www pick url)
     = Raised (cause (Z.to_nat (web_scraper.retry_count scraper - 1))) ∧
     count is_call (trace (web_scraper.scrape_static scraper www pick url))
     = Z.to_nat (web_scraper.retry_count scraper)).
Proof.
  intros Hm. split.
  - intros cause a Ha Hfail.
    rewrite (make_request_eq _ _ _ _ _ Hm).
    split; [|split].
    + destruct (retry_loop_failure_reported self net rnd (url_of endpoint) method
                  (headers_of endpoint) (params_of endpoint) (data_of endpoint)
                  cause a (Z.to_nat (retry_count self)) 0 Hfail eq_refl
                  ltac:(lia)) as (pre & post & -> & _).
      apply elem_of_app. right. left.
    + intros Hlast.
      replace (Z.to_nat (retry_count self)) with (S a) by lia.
      destruct (retry_loop_exhausted self net rnd (url_of endpoint) method
                  (headers_of endpoint) (params_of endpoint) (data_of endpoint)
                  a 0 cause) as (Hout & _).
      * lia.
      * exact Hfail.
      * exact Hout.
    + intros resp Hlt Hs Hok.
      destruct (retry_loop_succeeds self net rnd (url_of endpoint) method
                  (headers_of endpoint) (params_of endpoint) (data_of endpoint)
                  (S a) (Z.to_nat (retry_count self)) 0
                  (success_record (url_of endpoint) resp)) as (Hout & _).
      * intros i Hi. exists (cause i). apply Hfail. lia.
      * destruct (operation_supported net (url_of endpoint) method
                    (headers_of endpoint) (params_of endpoint)
                    (data_of endpoint) (S a) Hs) as (verb & json & Hop).
        cbn [Nat.add]. by rewrite Hop, outcome_mk, Hok.
      * lia.
      * lia.
      * exact Hout.
  - intros cause Hrcs Hfail. unfold web_scraper.scrape_static.
    destruct (Z.to_nat (web_scraper.retry_count scraper)) as [|todo] eqn:Htodo;
      [lia|].
    destruct (static_loop_exhausted scraper www pick url todo 0 cause)
      as (Hout & Hc).
    + lia.
    + intros i Hi. apply Hfail. lia.
    + rewrite Hout, Hc.
      by replace (Z.to_nat (web_scraper.retry_count scraper - 1)) with todo by lia.
Qed.

Lemma faults_contained_in_make_request_not_in_scrape_static_witness :
  let scraper := sample_scraper 2 in
  let refused := λ _ : nat, Exn "ClientConnectionError" "connection refused" in
  let gone := λ _ : nat, Exn "HTTPError" "404 Client Error: Not Found" in
  let lucky := make_request (sample_api 3) third_time_lucky half sample_endpoint in
  let unlucky := make_request (sample_api 2) always_failing half sample_endpoint in
  (method_of sample_endpoint = Returned "GET" ∧
   (∀ i, i ≤ 1 →
      outcome (operation_of third_time_lucky sample_endpoint "GET" i)
      = Raised (refused i)) ∧
   third_time_lucky 2 = Returned (Response 200 ∅ "ok") ∧
   supported "GET" ∧
   (∀ i, outcome (operation_of always_failing sample_endpoint "GET" i)
         = Raised (refused i)) ∧
   (1 ≤ web_scraper.retry_count scraper)%Z ∧
   (∀ a, not_found a = Raised (gone a))) ∧
  Log WARNING (AttemptFailed 2 (PStr "https://api.example.com/data")
                 "connection refused") ∈ trace lucky ∧
  outcome lucky
  = Returned (PDict {[ "url" := PStr "https://api.example.com/data";
                       "status" := PInt 200;
                       "headers" := PDict ∅;
                       "data" := PStr "ok" ]}) ∧
  Log WARNING (AttemptFailed 2 (PStr "https://api.example.com/data")
                 "connection refused") ∈ trace unlucky ∧
  outcome unlucky
  = Returned (PDict {[ "url" := PStr "https://api.example.com/data";
                       "error" := PStr "connection refused" ]}) ∧
  outcome (web_scraper.scrape_static scraper not_found (λ _, 0) "https://example.com")
  = Raised (gone 1) ∧
  count is_call
    (trace (web_scraper.scrape_static scraper not_found (λ _, 0) "https://example.com"))
  = 2.
Proof.
  intros scraper refused gone lucky unlucky.
  assert (H1 : method_of sample_endpoint = Returned "GET") by reflexivity.
  assert (H2 : ∀ i, i ≤ 1 →
    outcome (operation_of third_time_lucky sample_endpoint "GET" i)
    = Raised (refused i)).
  { intros [|[|i]] Hi; [reflexivity..|lia]. }
  assert (H3 : third_time_lucky 2 = Returned (Response 200 ∅ "ok"))
    by reflexivity.
  assert (H4 : supported "GET") by (by left).
  assert (H5 : ∀ i, outcome (operation_of always_failing sample_endpoint "GET" i)
                    = Raised (refused i)) by (intros i; reflexivity).
  assert (H6 : (1 ≤ web_scraper.retry_count scraper)%Z) by (simpl; lia).
  assert (H7 : ∀ a, not_found a = Raised (gone a)) by (intros a; reflexivity).
  split; [done|].
  destruct (faults_contained_in_make_request_not_in_scrape_static
              (sample_api 3) third_time_lucky half sample_endpoint "GET"
              scraper not_found (λ _, 0) "https://example.com" H1)
    as (Hlucky & Hpage).
  destruct (faults_contained_in_make_request_not_in_scrape_static
              (sample_api 2) always_failing half sample_endpoint "GET"
              scraper not_found (λ _, 0) "https://example.com" H1)
    as (Hunlucky & _).
  destruct (Hlucky refused 1 ltac:(simpl; lia) H2) as (Hw & _ & Hok).
  destruct (Hunlucky refused 1 ltac:(simpl; lia) (λ i _, H5 i))
    as (Hw' & Herr & _).
  split; [exact Hw|].
  split; [exact (Hok _ ltac:(simpl; lia) H4 H3)|].
  split; [exact Hw'|].
  split; [exact (Herr eq_refl)|].
  exact (Hpage gone H6 (λ a _, H7 a)).
Defined.

(** ** The batch behind the semaphore *)

Lemma sum_list_with_insert {A} (f : A → nat) (l : list A) i x y :
  l !! i = Some x →
  sum_list_with f (<[i:=y]> l) + f x = sum_list_with f l + f y.
Proof.
  revert i. induction l as [|z l IH]; intros [|i] Hi; simplify_eq/=; [lia|].
  specialize (IH i Hi). lia.
Qed.

Section batch_facts.
Context (self : APIAutomation) (net : nat → session) (rnd : nat → nat → Q).

Local Abbreviation step := (step self net rnd).
Local Abbreviation next := (next self net rnd).
Local Abbreviation drive := (drive self net rnd).
Local Abbreviation batch_inv := (batch_inv self net rnd).
Local Abbreviation task_result := (task_result self net rnd).
Local Abbreviation release := (release self net rnd).

Lemma in_flight_acquire i b :
  tasks b !! i = Some Waiting → in_flight (acquire i b) = S (in_flight b).
Proof.
  intros Hi. unfold in_flight, acquire. cbn.
  pose proof (sum_list_with_insert
    (λ p, if is_running p then 1 else 0) (tasks b) i Waiting Running Hi) as H.
  cbn in H. lia.
Qed.

Lemma in_flight_release i endpoint b :
  tasks b !! i = Some Running →
  S (in_flight (release i endpoint b)) = in_flight b.
Proof.
  intros Hi. unfold in_flight, api_automation.release. cbn.
  pose proof (sum_list_with_insert
    (λ p, if is_running p then 1 else 0) (tasks b) i Running
    (Finished (task_result i endpoint)) Hi) as H.
  cbn in H. lia.
Qed.

Lemma work_step b b' : step b b' → S (work b') = work b.
Proof.
  destruct 1 as [i b Hi _|i endpoint b Hi _]; unfold work; cbn.
  - pose proof (sum_list_with_insert
      (λ p, match p with Waiting => 2 | Running => 1 | Finished _ => 0 end)
      (tasks b) i Waiting Running Hi) as H.
    cbn in H. lia.
  - pose proof (sum_list_with_insert
      (λ p, match p with Waiting => 2 | Running => 1 | Finished _ => 0 end)
      (tasks b) i Running (Finished (task_result i endpoint)) Hi) as H.
    cbn in H. lia.
Qed.

Lemma batch_inv_start : (0 ≤ concurrency self)%Z → batch_inv (start self).
Proof.
  intros Hc. unfold api_automation.batch_inv, start, in_flight. cbn.
  split; [by rewrite length_replicate|]. split.
  - assert (sum_list_with (λ p, if is_running p then 1 else 0)
              (replicate (length (endpoints self)) Waiting) = 0) as ->; [|lia].
    by induction (length (endpoints self)).
  - split; [done|]. intros i c Hi.
    apply lookup_replicate in Hi as [? _]. done.
Qed.

Lemma batch_inv_step b b' : step b b' → batch_inv b → batch_inv b'.
Proof.
  intros Hstep (Hlen & Hsem & Hpos & Hfin).
  destruct Hstep as [i b Hi Hfree|i endpoint b Hi Hep].
  - split; [by cbn; rewrite length_insert|]. split.
    { rewrite in_flight_acquire by done. cbn. lia. }
    split; [cbn; lia|].
    intros j c Hj. cbn in Hj.
    apply list_lookup_insert_Some in Hj as [(_ & ? & _)|(_ & Hj)]; [done|].
    by apply Hfin.
  - split; [by cbn; rewrite length_insert|]. split.
    { pose proof (in_flight_release i endpoint b Hi).
      change (sem_value (release i endpoint b)) with (sem_value b + 1)%Z. lia. }
    split; [cbn; lia|].
    intros j c Hj. cbn in Hj.
    apply list_lookup_insert_Some in Hj as [(<- & [= <-] & _)|(_ & Hj)].
    + eauto.
    + by apply Hfin.
Qed.

Lemma batch_inv_rtc b b' : rtc step b b' → batch_inv b → batch_inv b'.
Proof. induction 1; eauto using batch_inv_step. Qed.

Lemma batch_inv_reachable b :
  (0 ≤ concurrency self)%Z → reachable self net rnd b → batch_inv b.
Proof. intros Hc Hb. eapply batch_inv_rtc; [done|]. by apply batch_inv_start. Qed.

Lemma next_step b b' : next b = Some b' → step b b'.
Proof.
  unfold api_automation.next.
  destruct (0 <? sem_value b)%Z eqn:Hfree.
  - destruct (list_find is_waiting (tasks b)) as [[i p]|] eqn:Hw.
    + intros [= <-]. apply list_find_Some in Hw as (Hi & Hp & _).
      destruct p; try done. apply step_acquire; [done|]. by apply Z.ltb_lt.
    + destruct (list_find is_running (tasks b)) as [[i p]|] eqn:Hr; [|done].
      destruct (endpoints self !! i) as [endpoint|] eqn:Hep; [|done].
      intros [= <-]. apply list_find_Some in Hr as (Hi & Hp & _).
      destruct p; try done. by apply step_release.
  - destruct (list_find is_running (tasks b)) as [[i p]|] eqn:Hr; [|done].
    destruct (endpoints self !! i) as [endpoint|] eqn:Hep; [|done].
    intros [= <-]. apply list_find_Some in Hr as (Hi & Hp & _).
    destruct p; try done. by apply step_release.
Qed.

Lemma no_running_in_flight (l : list phase) :
  Forall (λ p, ¬ is_running p) l →
  sum_list_with (λ p, if is_running p then 1 else 0) l = 0.
Proof.
  induction 1 as [|p l Hp _ IH]; [done|]. cbn. rewrite IH.
  by destruct p.
Qed.

Lemma all_finished_work (l : list phase) :
  Forall (λ p, ¬ is_running p) l →
  Forall (λ p, ¬ is_waiting p) l →
  sum_list_with
    (λ p, match p with Waiting => 2 | Running => 1 | Finished _ => 0 end) l = 0.
Proof.
  induction 1 as [|p l Hp _ IH]; [done|].
  intros [Hw Hl]%Forall_cons. cbn. rewrite IH by done.
  by destruct p.
Qed.

(** With a capacity of at least one, a batch that is not done can move. *)
Lemma next_progress b :
  batch_inv b → (1 ≤ concurrency self)%Z → work b ≠ 0 → is_Some (next b).
Proof.
  intros (Hlen & Hsem & Hpos & _) Hc Hwork.
  unfold api_automation.next.
  destruct (list_find is_running (tasks b)) as [[i p]|] eqn:Hr.
  - apply list_find_Some in Hr as (Hi & _ & _).
    apply lookup_lt_Some in Hi. rewrite Hlen in Hi.
    apply lookup_lt_is_Some in Hi as [endpoint ->].
    destruct (0 <? sem_value b)%Z; [|done].
    by destruct (list_find is_waiting (tasks b)) as [[]|].
  - apply list_find_None in Hr.
    assert (in_flight b = 0) as H0 by by apply no_running_in_flight.
    assert ((0 <? sem_value b)%Z = true) as -> by (apply Z.ltb_lt; lia).
    destruct (list_find is_waiting (tasks b)) as [[]|] eqn:Hw; [done|].
    apply list_find_None in Hw. exfalso. apply Hwork.
    by apply all_finished_work.
Qed.

Lemma drive_completes fuel : ∀ b,
  batch_inv b → (1 ≤ concurrency self)%Z → work b ≤ fuel →
  rtc step b (drive fuel b) ∧ work (drive fuel b) = 0.
Proof.
  induction fuel as [|fuel IH]; intros b Hinv Hc Hfuel.
  - split; [done|]. cbn. lia.
  - cbn. destruct (next b) as [b'|] eqn:Hnext.
    + pose proof (next_step b b' Hnext) as Hstep.
      pose proof (work_step b b' Hstep) as Hw.
      destruct (IH b') as [Hrtc Hdone];
        [by eapply batch_inv_step|done|lia|].
      split; [by eapply rtc_l|done].
    + split; [done|].
      destruct (decide (work b = 0)) as [|Hne]; [done|].
      destruct (next_progress b Hinv Hc Hne) as [b' Hb']. congruence.
Qed.

Lemma work_zero_gathered (l : list phase) :
  sum_list_with
    (λ p, match p with Waiting => 2 | Running => 1 | Finished _ => 0 end) l = 0 →
  is_Some (mapM (λ p, match p with Finished c => Some c | _ => None end) l).
Proof.
  induction l as [|p l IH]; [by eexists|].
  cbn. destruct p as [| |c]; [lia..|]. intros Hl.
  destruct (IH Hl) as [cs ->]. by eexists.
Qed.

(** What [gather] collects is, index by index, the result of the task of
    that endpoint. *)
Lemma gathered_aligned b cs :
  batch_inv b → gathered b = Some cs →
  cs = imap task_result (endpoints self).
Proof.
  intros (Hlen & _ & _ & Hfin) Hg. unfold gathered in Hg.
  apply mapM_Some in Hg.
  apply list_eq. intros i. rewrite list_lookup_imap.
  destruct (cs !! i) as [c|] eqn:Hc.
  - destruct (Forall2_lookup_r _ _ _ _ _ Hg Hc) as (p & Hp & Hpc).
    destruct p; try done. injection Hpc as ->.
    destruct (Hfin i c Hp) as (endpoint & -> & ->). done.
  - apply lookup_ge_None in Hc.
    rewrite <- (Forall2_length _ _ _ Hg), Hlen in Hc.
    apply lookup_ge_None in Hc. by rewrite Hc.
Qed.

Lemma run_async_eq :
  (1 ≤ concurrency self)%Z →
  run_async self net rnd =
    Some (Returned (imap (λ i endpoint, process (task_result i endpoint))
                         (endpoints self))).
Proof.
  intros Hc. unfold run_async.
  assert ((concurrency self <? 0)%Z = false) as -> by (apply Z.ltb_ge; lia).
  pose proof (batch_inv_start ltac:(lia)) as Hinv.
  destruct (drive_completes (2 * length (endpoints self)) (start self) Hinv Hc)
    as [Hrtc Hdone].
  { unfold work, start. cbn. induction (length (endpoints self)); cbn; lia. }
  pose proof (batch_inv_rtc _ _ Hrtc Hinv) as Hinv'.
  destruct (work_zero_gathered _ Hdone) as [cs Hcs].
  unfold processed_results. fold (gathered (drive (2 * length (endpoints self)) (start self))) in Hcs.
  rewrite Hcs. cbn. do 2 f_equal.
  rewrite (gathered_aligned _ _ Hinv' Hcs).
  apply list_eq. intros i. rewrite list_lookup_fmap, !list_lookup_imap.
  by destruct (endpoints self !! i).
Qed.

(** A reachable batch that cannot move has all its tasks done. *)
Lemma stuck_is_done b :
  batch_inv b → (1 ≤ concurrency self)%Z →
  (∀ b', ¬ step b b') → work b = 0.
Proof.
  intros Hinv Hc Hstuck.
  destruct (decide (work b = 0)) as [|Hne]; [done|].
  destruct (next_progress b Hinv Hc Hne) as [b' Hb'].
  destruct (Hstuck b'). by apply next_step.
Qed.

Lemma done_results b :
  batch_inv b → work b = 0 →
  processed_results b
    = Some (imap (λ i endpoint, process (task_result i endpoint))
                 (endpoints self)).
Proof.
  intros Hinv Hdone.
  destruct (work_zero_gathered _ Hdone) as [cs Hcs]. fold (gathered b) in Hcs.
  unfold processed_results. rewrite Hcs. cbn. f_equal.
  rewrite (gathered_aligned _ _ Hinv Hcs).
  apply list_eq. intros i. rewrite list_lookup_fmap, !list_lookup_imap.
  by destruct (endpoints self !! i).
Qed.

End batch_facts.

(** C1.  With a capacity of at least one, [run_async] returns a list with one
    entry per endpoint, empty for an empty batch.  Entry [i] belongs to
    endpoint [i]: it is the value [make_request] returned for that endpoint,
    or [{'error': str(e)}] when it raised [e]; in particular it is the record
    [{'url': ..., 'status': ..., 'headers': ..., 'data': ...}] of the response
    when the call of endpoint [i] succeeds on attempt [k <= retry_count]
    after [k - 1] failures, and [{'url': ..., 'error': str(e)}] when all its
    [retry_count >= 1] attempts fail, [e] being the exception of the last.
    This does not depend on the order in which tasks are admitted and
    complete: every move brings the batch closer to its end, and whenever a
    batch reached by any sequence of moves can move no further, all its tasks
    are done and the results collected are this same list. *)
Theorem run_async_results_are_aligned
    (self : APIAutomation) (net : nat → session) (rnd : nat → nat → Q) :
  (1 ≤ concurrency self)%Z →
  ∃ results,
    run_async self net rnd = Some (Returned results) ∧
    length results = length (endpoints self) ∧
    (∀ i endpoint r,
       endpoints self !! i = Some endpoint →
       outcome (make_request self (net i) (rnd i) endpoint) = Returned r →
       results !! i = Some r) ∧
    (∀ i endpoint e,
       endpoints self !! i = Some endpoint →
       outcome (make_request self (net i) (rnd i) endpoint) = Raised e →
       results !! i = Some (PDict {[ "error" := PStr (str e) ]})) ∧
    (∀ i endpoint method k resp,
       endpoints self !! i = Some endpoint →
       method_of endpoint = Returned method →
       supported method →
       1 ≤ k →
       (Z.of_nat k ≤ retry_count self)%Z →
       (∀ a, a < k - 1 → ∃ e, net i a = Raised e) →
       net i (k - 1) = Returned resp →
       results !! i
       = Some (PDict {[ "url" := url_of endpoint;
                        "status" := PInt (status resp);
                        "headers" := PDict (PStr <$> headers resp);
                        "data" := PStr (text resp) ]})) ∧
    (∀ i endpoint method cause,
       endpoints self !! i = Some endpoint →
       method_of endpoint = Returned method →
       (1 ≤ retry_count self)%Z →
       (∀ a, (Z.of_nat a < retry_count self)%Z →
             outcome (operation_of (net i) endpoint method a) = Raised (cause a)) →
       results !! i
       = Some (PDict {[ "url" := url_of endpoint;
                        "error" :=
                          PStr (str (cause (Z.to_nat (retry_count self - 1)))) ]})) ∧
    (endpoints self = [] → results = []) ∧
    (∀ b,
       reachable self net rnd b →
       (∀ b', ¬ step self net rnd b b') →
       processed_results b = Some results) ∧
    (∀ b b', step self net rnd b b' → work b' < work b).
Proof.
  intros Hc.
  exists (imap (λ i endpoint, process (task_result self net rnd i endpoint))
            (endpoints self)).
  split; [by apply run_async_eq|].
  split; [by rewrite length_imap|].
  split; [|split; [|split; [|split; [|split; [|split]]]]].
  - intros i endpoint r Hi Hr. rewrite list_lookup_imap, Hi. cbn.
    unfold task_result. by rewrite Hr.
  - intros i endpoint e Hi He. rewrite list_lookup_imap, Hi. cbn.
    unfold task_result. by rewrite He.
  - intros i endpoint method k resp Hi Hm Hs Hk Hrc Hfail Hok.
    rewrite list_lookup_imap, Hi. cbn. unfold task_result.
    rewrite (make_request_eq _ _ _ _ _ Hm).
    destruct (retry_loop_succeeds self (net i) (rnd i) (url_of endpoint) method
                (headers_of endpoint) (params_of endpoint) (data_of endpoint)
                (k - 1) (Z.to_nat (retry_count self)) 0
                (success_record (url_of endpoint) resp)) as (Hout & _).
    + intros a Ha. destruct (Hfail a Ha) as [e He].
      destruct (operation_supported (net i) (url_of endpoint) method
                  (headers_of endpoint) (params_of endpoint)
                  (data_of endpoint) a Hs) as (verb & json & Hop).
      exists e. cbn [Nat.add]. by rewrite Hop, outcome_mk, He.
    + destruct (operation_supported (net i) (url_of endpoint) method
                  (headers_of endpoint) (params_of endpoint)
                  (data_of endpoint) (k - 1) Hs) as (verb & json & Hop).
      cbn [Nat.add]. by rewrite Hop, outcome_mk, Hok.
    + lia.
    + lia.
    + by rewrite Hout.
  - intros i endpoint method cause Hi Hm Hrc Hfail.
    rewrite list_lookup_imap, Hi. cbn. unfold task_result.
    rewrite (make_request_eq _ _ _ _ _ Hm).
    destruct (Z.to_nat (retry_count self)) as [|todo] eqn:Htodo; [lia|].
    destruct (retry_loop_exhausted self (net i) (rnd i) (url_of endpoint) method
                (headers_of endpoint) (params_of endpoint) (data_of endpoint)
                todo 0 cause) as (Hout & _).
    + lia.
    + intros a Ha. apply Hfail. lia.
    + rewrite Hout. cbn [Nat.add].
      by replace (Z.to_nat (retry_count self - 1)) with todo by lia.
  - by intros ->.
  - intros b Hb Hstuck.
    assert (batch_inv self net rnd b) as Hinv
      by (apply batch_inv_reachable; [lia|done]).
    apply done_results; [done|]. by apply (stuck_is_done self net rnd).
  - intros b b' Hstep. pose proof (work_step self net rnd b b' Hstep). lia.
Qed.

Lemma run_async_results_are_aligned_witness :
  let self :=
    {| endpoints := [sample_endpoint; sample_endpoint; sample_endpoint];
       concurrency := 2; retry_count := 3; delay_range := (1, 3)%Q |} in
  let net := λ i : nat, if decide (i = 1) then always_failing else third_time_lucky in
  let rnd := λ _ : nat, half in
  let refused := λ _ : nat, Exn "ClientConnectionError" "connection refused" in
  ((1 ≤ concurrency self)%Z ∧
   endpoints self !! 0 = Some sample_endpoint ∧
   endpoints self !! 1 = Some sample_endpoint ∧
   method_of sample_endpoint = Returned "GET" ∧
   supported "GET" ∧
   1 ≤ 3 ∧ (Z.of_nat 3 ≤ retry_count self)%Z ∧
   (∀ a, a < 3 - 1 → ∃ e, net 0 a = Raised e) ∧
   net 0 (3 - 1) = Returned (Response 200 ∅ "ok") ∧
   (1 ≤ retry_count self)%Z ∧
   (∀ a, outcome (operation_of (net 1) sample_endpoint "GET" a)
         = Raised (refused a))) ∧
  ∃ results,
    run_async self net rnd = Some (Returned results) ∧
    length results = 3 ∧
    results !! 0
    = Some (PDict {[ "url" := PStr "https://api.example.com/data";
                     "status" := PInt 200;
                     "headers" := PDict ∅;
                     "data" := PStr "ok" ]}) ∧
    results !! 1
    = Some (PDict {[ "url" := PStr "https://api.example.com/data";
                     "error" := PStr "connection refused" ]}) ∧
    (∀ b,
       reachable self net rnd b →
       (∀ b', ¬ step self net rnd b b') →
       processed_results b = Some results) ∧
    (∀ b b', step self net rnd b b' → work b' < work b).
Proof.
  intros self net rnd refused.
  assert (H1 : (1 ≤ concurrency self)%Z) by (simpl; lia).
  assert (H2 : endpoints self !! 0 = Some sample_endpoint) by reflexivity.
  assert (H3 : endpoints self !! 1 = Some sample_endpoint) by reflexivity.
  assert (H4 : method_of sample_endpoint = Returned "GET") by reflexivity.
  assert (H5 : supported "GET") by (by left).
  assert (H6 : 1 ≤ 3) by lia.
  assert (H7 : (Z.of_nat 3 ≤ retry_count self)%Z) by (simpl; lia).
  assert (H8 : ∀ a, a < 3 - 1 → ∃ e, net 0 a = Raised e).
  { intros a Ha. change (net 0 a) with (third_time_lucky a).
    unfold third_time_lucky. rewrite decide_False by lia. eauto. }
  assert (H9 : net 0 (3 - 1) = Returned (Response 200 ∅ "ok")) by reflexivity.
  assert (H10 : (1 ≤ retry_count self)%Z) by (simpl; lia).
  assert (H11 : ∀ a, outcome (operation_of (net 1) sample_endpoint "GET" a)
                     = Raised (refused a)) by (intros a; reflexivity).
  split; [done|].
  destruct (run_async_results_are_aligned self net rnd H1)
    as (results & Hrun & Hlen & _ & _ & Hok & Herr & _ & Hany & Hwork).
  exists results.
  split; [exact Hrun|]. split; [exact Hlen|].
  split; [exact (Hok 0 sample_endpoint "GET" 3 _ H2 H4 H5 H6 H7 H8 H9)|].
  split; [exact (Herr 1 sample_endpoint "GET" refused H3 H4 H10 (λ a _, H11 a))|].
  split; [exact Hany|exact Hwork].
Defined.

(** C8.  For a capacity of at least one and a batch at least as large, no
    state the batch can reach, under any scheduling, has more than
    [concurrency] tasks inside [make_request]. *)
Theorem in_flight_never_exceeds_concurrency
    (self : APIAutomation) (net : nat → session) (rnd : nat → nat → Q)
    (b : batch) :
  (1 ≤ concurrency self)%Z →
  (concurrency self ≤ Z.of_nat (length (endpoints self)))%Z →
  reachable self net rnd b →
  (Z.of_nat (in_flight b) ≤ concurrency self)%Z.
Proof.
  intros Hc _ Hb.
  destruct (batch_inv_reachable self net rnd b) as (_ & Hsem & Hpos & _);
    [lia|done|lia].
Qed.

Lemma in_flight_never_exceeds_concurrency_witness :
  let self :=
    {| endpoints := [sample_endpoint; sample_endpoint; sample_endpoint];
       concurrency := 2; retry_count := 3; delay_range := (1, 3)%Q |} in
  let net := λ _ : nat, third_time_lucky in
  let rnd := λ _ : nat, half in
  let b := Batch 0 [Running; Running; Waiting] in
  ((1 ≤ concurrency self)%Z ∧
   (concurrency self ≤ Z.of_nat (length (endpoints self)))%Z ∧
   reachable self net rnd b) ∧
  (Z.of_nat (in_flight b) ≤ concurrency self)%Z.
Proof.
  intros self net rnd b.
  assert (H1 : (1 ≤ concurrency self)%Z) by (simpl; lia).
  assert (H2 : (concurrency self ≤ Z.of_nat (length (endpoints self)))%Z)
    by (simpl; lia).
  assert (H3 : reachable self net rnd b).
  { eapply rtc_l; [apply (step_acquire self net rnd 0); [reflexivity|simpl; lia]|].
    eapply rtc_l; [apply (step_acquire self net rnd 1); [reflexivity|simpl; lia]|].
    apply rtc_refl. }
  split; [done|].
  exact (in_flight_never_exceeds_concurrency self net rnd b H1 H2 H3).
Defined.

(** ** The constructor and invalid configurations *)

Lemma drive_stuck self net rnd fuel b :
  next self net rnd b = None → drive self net rnd fuel b = b.
Proof. intros Hn. destruct fuel; [done|]. cbn. by rewrite Hn. Qed.

Lemma run_async_zero_capacity self net rnd :
  concurrency self = 0%Z → endpoints self ≠ [] →
  run_async self net rnd = None.
Proof.
  intros Hc Hne. unfold run_async. rewrite Hc. cbn.
  rewrite drive_stuck.
  - unfold processed_results, gathered, start.
    destruct (endpoints self); [done|]. done.
  - unfold next, start. cbn. rewrite Hc. cbn.
    destruct (list_find is_running
                (replicate (length (endpoints self)) Waiting))
      as [[i p]|] eqn:Hr; [|done].
    apply list_find_Some in Hr as (Hi & Hp & _).
    apply lookup_replicate in Hi as [-> _]. done.
Qed.

(** C5, as stated, does not hold: the constructor takes a zero capacity, a
    negative retry limit and an inverted delay range without raising. *)
Lemma invalid_config_is_accepted :
  init invalid_config
    = Returned {| endpoints := [sample_endpoint]; concurrency := 0;
                  retry_count := -1; delay_range := (3, 1)%Q |} ∧
  ¬ ∃ e, init invalid_config = Raised e.
Proof. split; [reflexivity|]. intros [e He]. discriminate He. Qed.

(** C5 (amended).  The constructor rejects no configuration: it returns an
    executor holding the given capacity, retry limit and delay range (5, 3
    and [1, 3] when absent).  An invalid capacity shows only once the batch
    runs: a negative one makes [run_async] raise [ValueError] when it creates
    the semaphore, and a zero one leaves the tasks of a non-empty batch
    waiting at the semaphore, so that [run_async] does not return.  An
    inverted delay range causes no failure: the pacing delays then lie
    between its second and its first bound. *)
Theorem constructor_accepts_every_configuration
    (config : api_config) (net : nat → session) (rnd : nat → nat → Q) :
  ∃ self,
    init config = Returned self ∧
    concurrency self = default 5%Z (cfg_concurrency config) ∧
    retry_count self = default 3%Z (cfg_retry config) ∧
    delay_range self = default (1, 3)%Q (cfg_delay_range config) ∧
    ((concurrency self < 0)%Z →
       run_async self net rnd
       = Some (Raised (Exn "ValueError" "Semaphore initial value must be >= 0"))) ∧
    (concurrency self = 0%Z → endpoints self ≠ [] →
       run_async self net rnd = None) ∧
    (∀ r, ((delay_range self).2 <= (delay_range self).1)%Q →
          (0 <= r)%Q → (r <= 1)%Q →
          ((delay_range self).2
             <= uniform (delay_range self).1 (delay_range self).2 r)%Q ∧
          (uniform (delay_range self).1 (delay_range self).2 r
             <= (delay_range self).1)%Q).
Proof.
  eexists. split; [reflexivity|]. cbn. split; [done|]. split; [done|].
  split; [done|]. split; [|split].
  - intros Hneg. unfold run_async. cbn.
    by apply Z.ltb_lt in Hneg as ->.
  - intros Hz Hne. by apply run_async_zero_capacity.
  - intros r Hinv H0 H1. unfold uniform. split; nra.
Qed.

Lemma constructor_accepts_every_configuration_witness :
  let net := λ _ : nat, always_failing in
  let rnd := λ _ : nat, half in
  let negative :=
    {| cfg_endpoints := Some [sample_endpoint]; cfg_concurrency := Some (-1)%Z;
       cfg_retry := None; cfg_delay_range := None |} in
  (∃ self,
     init negative = Returned self ∧
     (concurrency self < 0)%Z ∧
     run_async self net rnd
     = Some (Raised (Exn "ValueError" "Semaphore initial value must be >= 0"))) ∧
  (∃ self,
     init invalid_config = Returned self ∧
     concurrency self = 0%Z ∧ endpoints self ≠ [] ∧
     run_async self net rnd = None ∧
     ((delay_range self).2 <= (delay_range self).1)%Q ∧
     ((delay_range self).2
        <= uniform (delay_range self).1 (delay_range self).2 (1 # 2))%Q ∧
     (uniform (delay_range self).1 (delay_range self).2 (1 # 2)
        <= (delay_range self).1)%Q).
Proof.
  intros net rnd negative. split.
  - destruct (constructor_accepts_every_configuration negative net rnd)
      as (self & Hinit & Hc & _ & _ & Hneg & _).
    exists self. split; [done|].
    assert (Hlt : (concurrency self < 0)%Z) by (rewrite Hc; simpl; lia).
    split; [done|]. exact (Hneg Hlt).
  - destruct (constructor_accepts_every_configuration invalid_config net rnd)
      as (self & Hinit & Hc & _ & Hd & _ & Hzero & Hrange).
    exists self. split; [done|].
    assert (Hz : concurrency self = 0%Z) by (rewrite Hc; reflexivity).
    assert (Hne : endpoints self ≠ [])
      by (injection Hinit as <-; discriminate).
    assert (Hinv : ((delay_range self).2 <= (delay_range self).1)%Q)
      by (rewrite Hd; discriminate).
    split; [done|]. split; [done|]. split; [exact (Hzero Hz Hne)|].
    split; [done|].
    apply (Hrange (1 # 2)%Q Hinv); discriminate.
Defined.

(** * Further properties of the two modules *)

(** ** The method of an endpoint *)

Lemma upper_ascii_idem c : upper_ascii (upper_ascii c) = upper_ascii c.
Proof. by destruct c as [[] [] [] [] [] [] [] []]. Qed.

Lemma upper_idem s : upper (upper s) = upper s.
Proof. induction s as [|c s IH]; [done|]. cbn. by rewrite upper_ascii_idem, IH. Qed.

Lemma make_request_reads self net rnd endpoint endpoint' :
  url_of endpoint = url_of endpoint' →
  method_of endpoint = method_of endpoint' →
  headers_of endpoint = headers_of endpoint' →
  params_of endpoint = params_of endpoint' →
  data_of endpoint = data_of endpoint' →
  make_request self net rnd endpoint = make_request self net rnd endpoint'.
Proof. intros Hu Hm Hh Hp Hd. unfold make_request. by rewrite Hu, Hm, Hh, Hp, Hd. Qed.

Lemma make_request_set_method self net rnd endpoint v v' :
  call_upper v = call_upper v' →
  make_request self net rnd (<["method" := v]> endpoint)
  = make_request self net rnd (<["method" := v']> endpoint).
Proof.
  intros Hv. apply make_request_reads;
    unfold url_of, method_of, headers_of, params_of, data_of;
    rewrite ?lookup_insert_eq, ?lookup_insert_ne by done; done.
Qed.

(** X1.  [make_request] reads the method without regard to case, and an
    endpoint without a method is treated as a GET: the run is the same, event
    for event. *)
Theorem method_is_case_insensitive_and_defaults_to_get
    (self : APIAutomation) (net : session) (rnd : nat → Q)
    (endpoint : gmap string pyval) (method : string) :
  make_request self net rnd (<["method" := PStr method]> endpoint)
  = make_request self net rnd (<["method" := PStr (upper method)]> endpoint) ∧
  (endpoint !! "method" = None →
   make_request self net rnd endpoint
   = make_request self net rnd (<["method" := PStr "GET"]> endpoint)).
Proof.
  split.
  - apply make_request_set_method. cbn. by rewrite upper_idem.
  - intros Hnone. apply make_request_reads;
      unfold url_of, method_of, headers_of, params_of, data_of;
      rewrite ?lookup_insert_eq, ?lookup_insert_ne by done; try done.
    by rewrite Hnone.
Qed.

Lemma method_is_case_insensitive_and_defaults_to_get_witness :
  let bare : gmap string pyval := {[ "url" := PStr "https://api.example.com/data" ]} in
  let self := sample_api 3 in
  make_request self third_time_lucky half (<["method" := PStr "Post"]> bare)
  = make_request self third_time_lucky half (<["method" := PStr "POST"]> bare) ∧
  (bare !! "method" = None ∧
   make_request self third_time_lucky half bare
   = make_request self third_time_lucky half (<["method" := PStr "GET"]> bare)).
Proof.
  intros bare self.
  destruct (method_is_case_insensitive_and_defaults_to_get self
              third_time_lucky half bare "Post") as [H1 H2].
  split; [exact H1|].
  assert (Hn : bare !! "method" = None) by reflexivity.
  split; [done|]. exact (H2 Hn).
Defined.

(** X2.  An endpoint whose method is not a string makes [make_request] raise
    [AttributeError] before any attempt, outside its [try]; in a batch (with
    a capacity of at least one) [run_async] turns that exception into the
    record [{'error': message}] at the endpoint's own index. *)
Theorem non_string_method_becomes_error_record
    (self : APIAutomation) (net : nat → session) (rnd : nat → nat → Q)
    (i : nat) (endpoint : gmap string pyval) (v : pyval) :
  (1 ≤ concurrency self)%Z →
  endpoints self !! i = Some endpoint →
  endpoint !! "method" = Some v →
  (∀ s, v ≠ PStr s) →
  let message := "'" +:+ type_name v +:+ "' object has no attribute 'upper'" in
  make_request self (net i) (rnd i) endpoint
    = ([], Raised (Exn "AttributeError" message)) ∧
  ∃ results,
    run_async self net rnd = Some (Returned results) ∧
    length results = length (endpoints self) ∧
    results !! i = Some (PDict {[ "error" := PStr message ]}).
Proof.
  intros Hc Hi Hv Hns message.
  assert (Hm : method_of endpoint = Raised (Exn "AttributeError" message)).
  { unfold method_of. rewrite Hv. cbn. destruct v; try done. by destruct (Hns s). }
  pose proof (make_request_raises self (net i) (rnd i) endpoint _ Hm) as Hmr.
  split; [done|].
  eexists. split; [by apply run_async_eq|].
  split; [by rewrite length_imap|].
  rewrite list_lookup_imap, Hi. cbn. unfold task_result. by rewrite Hmr.
Qed.

Lemma non_string_method_becomes_error_record_witness :
  let broken : gmap string pyval :=
    {[ "url" := PStr "https://api.example.com/data"; "method" := PNone ]} in
  let self :=
    {| endpoints := [sample_endpoint; broken]; concurrency := 2;
       retry_count := 3; delay_range := (1, 3)%Q |} in
  let net := λ _ : nat, third_time_lucky in
  let rnd := λ _ : nat, half in
  ((1 ≤ concurrency self)%Z ∧ endpoints self !! 1 = Some broken ∧
   broken !! "method" = Some PNone ∧ (∀ s, PNone ≠ PStr s)) ∧
  make_request self (net 1) (rnd 1) broken
    = ([], Raised (Exn "AttributeError"
                     "'NoneType' object has no attribute 'upper'")) ∧
  ∃ results,
    run_async self net rnd = Some (Returned results) ∧
    length results = 2 ∧
    results !! 1
    = Some (PDict {[ "error" := PStr "'NoneType' object has no attribute 'upper'" ]}).
Proof.
  intros broken self net rnd.
  assert (H1 : (1 ≤ concurrency self)%Z) by (simpl; lia).
  assert (H2 : endpoints self !! 1 = Some broken) by reflexivity.
  assert (H3 : broken !! "method" = Some PNone) by reflexivity.
  assert (H4 : ∀ s, PNone ≠ PStr s) by (intros s; discriminate).
  split; [done|].
  exact (non_string_method_becomes_error_record self net rnd 1 broken PNone
           H1 H2 H3 H4).
Defined.

(** ** How long a unit backs off *)

Lemma total_backoff_delays m : ∀ a,
  (total (backoff_delay <$> seq a m)
   == inject_Z (2 ^ Z.of_nat (a + m) - 2 ^ Z.of_nat a))%Q.
Proof.
  induction m as [|m IH]; intros a.
  - cbn. rewrite Nat.add_0_r, Z.sub_diag. reflexivity.
  - cbn [seq fmap list_fmap total foldr]. fold (total (backoff_delay <$> seq (S a) m)).
    rewrite IH. unfold backoff_delay. rewrite <- inject_Z_plus.
    apply inject_Z_injective.
    replace (Z.of_nat (S a + m)) with (Z.succ (Z.of_nat (a + m))) by lia.
    replace (Z.of_nat (a + S m)) with (Z.succ (Z.of_nat (a + m))) by lia.
    replace (Z.of_nat (S a)) with (Z.succ (Z.of_nat a)) by lia.
    rewrite !Z.pow_succ_r by lia. lia.
Qed.

Lemma retry_trace_total rc t :
  retry_trace rc 0 t →
  (total (backoffs t) <= inject_Z (2 ^ Z.max 0 (rc - 1) - 1))%Q.
Proof.
  intros Ht. destruct (retry_trace_backoffs rc 0 t Ht) as (m & -> & Hm).
  rewrite total_backoff_delays. rewrite <- Zle_Qle. cbn [Nat.add Z.of_nat].
  assert (2 ^ Z.of_nat m ≤ 2 ^ Z.max 0 (rc - 1))%Z; [|lia].
  apply Z.pow_le_mono_r; lia.
Qed.

(** X3.  Whatever happens, the backoff sleeps of one [make_request] or one
    [scrape_static] add up to at most [2^(retry_count - 1) - 1] (nothing for
    a retry limit below 2); and when every attempt of [make_request] fails,
    with [retry_count >= 1], they add up to exactly that. *)
Theorem backoff_total_is_bounded
    (self : APIAutomation) (net : session) (rnd : nat → Q)
    (endpoint : gmap string pyval)
    (scraper : web_scraper.WebScraper) (www : web_scraper.web)
    (pick : nat → nat) (url : string) :
  (total (backoffs (trace (make_request self net rnd endpoint)))
   <= inject_Z (2 ^ Z.max 0 (retry_count self - 1) - 1))%Q ∧
  (total (backoffs (trace (web_scraper.scrape_static scraper www pick url)))
   <= inject_Z (2 ^ Z.max 0 (web_scraper.retry_count scraper - 1) - 1))%Q ∧
  (∀ method cause,
     method_of endpoint = Returned method →
     (1 ≤ retry_count self)%Z →
     (∀ a, (Z.of_nat a < retry_count self)%Z →
           outcome (operation_of net endpoint method a) = Raised (cause a)) →
     (total (backoffs (trace (make_request self net rnd endpoint)))
      == inject_Z (2 ^ (retry_count self - 1) - 1))%Q).
Proof.
  split; [|split].
  - apply retry_trace_total.
    destruct (method_of endpoint) as [method|e] eqn:Hm.
    + rewrite (make_request_eq _ _ _ _ _ Hm). by apply retry_loop_retry_trace.
    + rewrite (make_request_raises _ _ _ _ _ Hm). apply retry_trace_quiet.
      constructor.
  - apply retry_trace_total. by apply static_loop_retry_trace.
  - intros method cause Hm Hrc Hfail.
    rewrite (make_request_eq _ _ _ _ _ Hm).
    destruct (Z.to_nat (retry_count self)) as [|todo] eqn:Htodo; [lia|].
    destruct (retry_loop_exhausted self net rnd (url_of endpoint) method
                (headers_of endpoint) (params_of endpoint) (data_of endpoint)
                todo 0 cause) as (_ & _ & _ & _ & Hb & _).
    + lia.
    + intros i Hi. apply Hfail. lia.
    + rewrite Hb, total_backoff_delays. apply inject_Z_injective.
      cbn [Nat.add Z.of_nat].
      replace (retry_count self - 1)%Z with (Z.of_nat todo) by lia.
      done.
Qed.

Lemma backoff_total_is_bounded_witness :
  let self := sample_api 4 in
  let cause := λ _ : nat, Exn "ClientConnectionError" "connection refused" in
  (method_of sample_endpoint = Returned "GET" ∧ (1 ≤ retry_count self)%Z ∧
   (∀ a, (Z.of_nat a < retry_count self)%Z →
         outcome (operation_of always_failing sample_endpoint "GET" a)
         = Raised (cause a))) ∧
  (total (backoffs (trace (make_request self always_failing half sample_endpoint)))
   == inject_Z 7)%Q.
Proof.
  intros self cause.
  assert (H1 : method_of sample_endpoint = Returned "GET") by reflexivity.
  assert (H2 : (1 ≤ retry_count self)%Z) by (simpl; lia).
  assert (H3 : ∀ a, (Z.of_nat a < retry_count self)%Z →
     outcome (operation_of always_failing sample_endpoint "GET" a)
     = Raised (cause a)) by (intros a _; reflexivity).
  split; [done|].
  destruct (backoff_total_is_bounded self always_failing half sample_endpoint
              (sample_scraper 1) not_found (λ _, 0) "https://example.com")
    as (_ & _ & Heq).
  exact (Heq "GET" cause H1 H2 H3).
Defined.

(** ** The requests of a unit *)

Section request_shape.
Context (self : APIAutomation) (net : session) (rnd : nat → Q).
Context (url : pyval) (method : string) (headers params data : pyval).

Local Abbreviation op := (operation net url method headers params data).
Local Abbreviation loop := (retry_loop self net rnd url method headers params data).

Lemma operation_request_shape a ev :
  ev ∈ trace (op a) →
  ∃ verb, verb_name verb = method ∧
          ev = Request verb url headers params (body_of verb data).
Proof.
  unfold operation, call.
  repeat case_bool_decide; cbn; destruct (net a); cbn; intros Hin.
  all: try (by apply elem_of_nil in Hin).
  all: apply list_elem_of_singleton in Hin.
  all: subst ev method.
  all: first [by exists GET|by exists POST|by exists PUT|by exists DELETE].
Qed.

Lemma retry_loop_request_shape : ∀ todo a0 ev,
  ev ∈ trace (loop todo a0) → is_request ev →
  ∃ verb, verb_name verb = method ∧
          ev = Request verb url headers params (body_of verb data).
Proof.
  induction todo as [|todo IH]; intros a0 ev Hin Hev.
  - by apply elem_of_nil in Hin.
  - destruct (outcome (op a0)) as [r|e] eqn:Hop.
    + rewrite (retry_loop_returned _ _ _ _ _ _ _ _ todo a0 r Hop), trace_mk in Hin.
      apply elem_of_cons in Hin as [->|Hin]; [done|].
      by eapply operation_request_shape.
    + destruct (decide (Z.of_nat a0 < retry_count self - 1)%Z) as [Hlt|Hge].
      * rewrite (retry_loop_retry _ _ _ _ _ _ _ _ todo a0 e Hop Hlt), trace_mk in Hin.
        apply elem_of_cons in Hin as [->|Hin]; [done|].
        apply elem_of_app in Hin as [Hin|Hin];
          [by eapply operation_request_shape|].
        apply elem_of_cons in Hin as [->|Hin]; [done|].
        apply elem_of_cons in Hin as [->|Hin]; [done|].
        by eapply IH.
      * rewrite (retry_loop_give_up _ _ _ _ _ _ _ _ todo a0 e Hop Hge), trace_mk in Hin.
        apply elem_of_cons in Hin as [->|Hin]; [done|].
        apply elem_of_app in Hin as [Hin|Hin];
          [by eapply operation_request_shape|].
        apply elem_of_cons in Hin as [->|Hin]; [done|].
        apply elem_of_cons in Hin as [->|Hin]; [done|].
        by apply elem_of_nil in Hin.
Qed.

End request_shape.

Lemma verb_name_inj verb verb' : verb_name verb = verb_name verb' → verb = verb'.
Proof. by destruct verb, verb'. Qed.

(** X4.  Every call a [make_request] sends, first attempt or retry, is the
    same call: the verb named by the upper-cased method, the endpoint's url,
    headers and params, and the endpoint's data as body for POST and PUT
    only. *)
Theorem retries_resend_the_same_request
    (self : APIAutomation) (net : session) (rnd : nat → Q)
    (endpoint : gmap string pyval) :
  (∀ ev, ev ∈ trace (make_request self net rnd endpoint) → is_request ev →
     ∃ verb,
       method_of endpoint = Returned (verb_name verb) ∧
       ev = Request verb (url_of endpoint) (headers_of endpoint)
              (params_of endpoint) (body_of verb (data_of endpoint))) ∧
  (∀ ev ev',
     ev ∈ trace (make_request self net rnd endpoint) →
     ev' ∈ trace (make_request self net rnd endpoint) →
     is_request ev → is_request ev' → ev = ev').
Proof.
  assert (Hshape : ∀ ev,
    ev ∈ trace (make_request self net rnd endpoint) → is_request ev →
    ∃ verb,
      method_of endpoint = Returned (verb_name verb) ∧
      ev = Request verb (url_of endpoint) (headers_of endpoint)
             (params_of endpoint) (body_of verb (data_of endpoint))).
  { intros ev Hin Hev.
    destruct (method_of endpoint) as [method|e] eqn:Hm.
    - rewrite (make_request_eq _ _ _ _ _ Hm) in Hin.
      destruct (retry_loop_request_shape _ _ _ _ _ _ _ _ _ _ _ Hin Hev)
        as (verb & <- & ->).
      by exists verb.
    - rewrite (make_request_raises _ _ _ _ _ Hm) in Hin.
      by apply elem_of_nil in Hin. }
  split; [done|].
  intros ev ev' Hin Hin' Hev Hev'.
  destruct (Hshape ev Hin Hev) as (verb & Hm & ->).
  destruct (Hshape ev' Hin' Hev') as (verb' & Hm' & ->).
  rewrite Hm in Hm'. injection Hm' as Hm'.
  by rewrite (verb_name_inj _ _ Hm').
Qed.

(** ** What reaches the CSV file *)

Lemma flattened_data_success url resp :
  flattened_data [success_record url resp]
  = [ {[ "url" := url; "status" := PInt (status resp);
         "headers" := PDict (PStr <$> headers resp);
         "data" := PStr (text resp) ]} ].
Proof. reflexivity. Qed.

Lemma flattened_data_error url e : flattened_data [error_record url e] = [].
Proof. reflexivity. Qed.

Lemma make_request_outcome_cases self net rnd endpoint :
  (∃ e, outcome (make_request self net rnd endpoint) = Raised e) ∨
  outcome (make_request self net rnd endpoint) = Returned PNone ∨
  (∃ a resp,
     net a = Returned resp ∧
     outcome (make_request self net rnd endpoint)
     = Returned (success_record (url_of endpoint) resp)) ∨
  (∃ e, outcome (make_request self net rnd endpoint)
        = Returned (error_record (url_of endpoint) e)).
Proof.
  destruct (method_of endpoint) as [method|e] eqn:Hm.
  - rewrite (make_request_eq _ _ _ _ _ Hm).
    destruct (Z.to_nat (retry_count self)) as [|todo] eqn:Htodo.
    + right. by left.
    + destruct (retry_loop_contained self net rnd (url_of endpoint) method
                  (headers_of endpoint) (params_of endpoint) (data_of endpoint)
                  todo 0) as [(a & resp & Hn & ->)|(a & e & _ & ->)]; [lia|..].
      * right. right. left. eauto.
      * right. right. right. eauto.
  - left. rewrite (make_request_raises _ _ _ _ _ Hm). eauto.
Qed.

(** X6.  The filter of [save_to_csv] and [save_to_sqlite] keeps, of what a
    unit of a batch yields, only success records: a row it keeps from the
    entry of an endpoint is the record of a response the session really
    returned for it, and the record of a unit that succeeded is kept as it
    is.  Error records, the exceptions [run_async] turned into records, and
    [None] are all dropped. *)
Theorem csv_rows_are_real_responses
    (self : APIAutomation) (net : session) (rnd : nat → Q)
    (endpoint : gmap string pyval) :
  let entry := process (outcome (make_request self net rnd endpoint)) in
  (∀ row, row ∈ flattened_data [entry] →
     ∃ a resp, net a = Returned resp ∧
               entry = success_record (url_of endpoint) resp ∧
               PDict row = entry) ∧
  (∀ resp, entry = success_record (url_of endpoint) resp →
           flattened_data [entry] ≠ []).
Proof.
  intros entry. split.
  - intros row Hrow. subst entry.
    destruct (make_request_outcome_cases self net rnd endpoint)
      as [[e He]|[He|[(a & resp & Hn & He)|[e He]]]]; rewrite He in Hrow |- *;
      cbn [process] in *.
    + by apply elem_of_nil in Hrow.
    + by apply elem_of_nil in Hrow.
    + rewrite flattened_data_success in Hrow.
      apply list_elem_of_singleton in Hrow as ->. by exists a, resp.
    + rewrite flattened_data_error in Hrow. by apply elem_of_nil in Hrow.
  - intros resp ->. by rewrite flattened_data_success.
Qed.

Lemma all_keys_from (items : list (gmap string pyval)) : ∀ (keys : gset string) k,
  k ∈ foldl (λ keys item, keys ∪ dom item) keys items ↔
  k ∈ keys ∨ ∃ item, item ∈ items ∧ k ∈ dom item.
Proof.
  induction items as [|item items IH]; intros keys k; cbn.
  - split; [by left|]. intros [?|(item & Hin & _)]; [done|].
    by apply elem_of_nil in Hin.
  - rewrite IH, elem_of_union. split.
    + intros [[?|?]|(item' & Hin & Hk)]; [by left|right..].
      * exists item. split; [left|done].
      * exists item'. split; [by right|done].
    + intros [?|(item' & Hin & Hk)]; [by left; left|].
      apply elem_of_cons in Hin as [->|Hin]; [by left; right|].
      right. eauto.
Qed.

Lemma save_to_csv_none data : flattened_data data = [] → save_to_csv data = None.
Proof. intros Hf. unfold save_to_csv. destruct data; [done|]. by rewrite Hf. Qed.

(** X7.  [save_to_csv] opens no file exactly when no item passes the filter
    (empty data, or nothing but errors and [None]).  Otherwise the rows are
    the filtered items in their order, every key of every row is a field
    name, so that [DictWriter] finds no unknown field, and every field name
    is a key of some row. *)
Theorem save_to_csv_columns (data : list pyval) :
  (save_to_csv data = None ↔ flattened_data data = []) ∧
  (∀ file, save_to_csv data = Some file →
     rows file = flattened_data data ∧
     (∀ row, row ∈ rows file → dom row ⊆ fieldnames file) ∧
     (∀ k, k ∈ fieldnames file → ∃ row, row ∈ rows file ∧ k ∈ dom row)).
Proof.
  unfold save_to_csv. destruct data as [|item data]; [by split|].
  destruct (flattened_data (item :: data)) as [|row0 rows0] eqn:Hf.
  - by split.
  - split; [by split|]. intros file [= <-]. cbn [rows fieldnames].
    split; [done|]. split.
    + intros row Hrow k Hk. unfold all_keys. apply all_keys_from. right. eauto.
    + intros k Hk. unfold all_keys in Hk.
      apply all_keys_from in Hk as [Hk|Hk]; [|done].
      by apply not_elem_of_empty in Hk.
Qed.

Lemma save_to_csv_columns_witness :
  let data := [PNone; PDict {[ "url" := PStr "u"; "status" := PInt 200 ]};
               PDict {[ "url" := PStr "v"; "error" := PStr "boom" ]}] in
  ∃ file, save_to_csv data = Some file ∧
    rows file = [ {[ "url" := PStr "u"; "status" := PInt 200 ]} ] ∧
    (∀ row, row ∈ rows file → dom row ⊆ fieldnames file) ∧
    (∀ k, k ∈ fieldnames file → ∃ row, row ∈ rows file ∧ k ∈ dom row).
Proof.
  intros data. eexists. split; [reflexivity|].
  destruct (save_to_csv_columns data) as [_ H].
  exact (H _ eq_refl).
Defined.

(** X8.  With a retry limit of zero or less and a capacity of at least one,
    a batch whose endpoints all have a string method makes no attempt at all
    and returns [None] for every endpoint; [save_to_csv] then writes no
    file. *)
Theorem batch_without_retries_yields_nothing
    (self : APIAutomation) (net : nat → session) (rnd : nat → nat → Q) :
  (1 ≤ concurrency self)%Z →
  (retry_count self ≤ 0)%Z →
  Forall (λ endpoint, ∃ method, method_of endpoint = Returned method)
    (endpoints self) →
  run_async self net rnd
    = Some (Returned (replicate (length (endpoints self)) PNone)) ∧
  save_to_csv (replicate (length (endpoints self)) PNone) = None.
Proof.
  intros Hc Hrc Hm. split.
  - rewrite run_async_eq by done. do 2 f_equal.
    apply list_eq. intros i. rewrite list_lookup_imap.
    destruct (endpoints self !! i) as [endpoint|] eqn:Hi; cbn.
    + rewrite Forall_forall in Hm.
      destruct (Hm endpoint) as [method Hmethod];
        [by eapply list_elem_of_lookup_2|].
      unfold task_result.
      rewrite (make_request_no_attempt _ _ _ _ _ Hmethod Hrc). cbn.
      symmetry. apply lookup_replicate. split; [done|].
      by eapply lookup_lt_Some.
    + symmetry. apply lookup_replicate_None. by apply lookup_ge_None.
  - apply save_to_csv_none.
    induction (length (endpoints self)) as [|n IH]; [done|]. exact IH.
Qed.

Lemma batch_without_retries_yields_nothing_witness :
  let self :=
    {| endpoints := [sample_endpoint; sample_endpoint]; concurrency := 2;
       retry_count := 0; delay_range := (1, 3)%Q |} in
  let net := λ _ : nat, third_time_lucky in
  let rnd := λ _ : nat, half in
  ((1 ≤ concurrency self)%Z ∧ (retry_count self ≤ 0)%Z ∧
   Forall (λ endpoint, ∃ method, method_of endpoint = Returned method)
     (endpoints self)) ∧
  run_async self net rnd = Some (Returned [PNone; PNone]) ∧
  save_to_csv [PNone; PNone] = None.
Proof.
  intros self net rnd.
  assert (H1 : (1 ≤ concurrency self)%Z) by (simpl; lia).
  assert (H2 : (retry_count self ≤ 0)%Z) by (simpl; lia).
  assert (H3 : Forall (λ endpoint, ∃ method, method_of endpoint = Returned method)
                 (endpoints self))
    by (repeat constructor; by exists "GET").
  split; [done|].
  exact (batch_without_retries_yields_nothing self net rnd H1 H2 H3).
Defined.

(** ** The scraper's two retry loops *)

Section scraper_loops.
Context (self : web_scraper.WebScraper) (www : web_scraper.web).
Context (pick : nat → nat) (url : string).

Local Abbreviation sloop := (web_scraper.static_loop self www pick url).
Local Abbreviation floop := (web_scraper.fetch_loop self www url).

Lemma static_loop_succeeds m : ∀ todo a0 pg,
  (∀ i, i < m → ∃ e, www (a0 + i) = Raised e) →
  www (a0 + m) = Returned pg →
  m < todo →
  (Z.of_nat (a0 + m) < web_scraper.retry_count self)%Z →
  outcome (sloop todo a0) = Returned (PDict (web_scraper.extract self pg)) ∧
  count is_call (trace (sloop todo a0)) = S m ∧
  count is_warning (trace (sloop todo a0)) = m ∧
  backoffs (trace (sloop todo a0)) = backoff_delay <$> seq a0 m.
Proof.
  induction m as [|m IH]; intros todo a0 pg Hfail Hok Htodo Hrc.
  - destruct todo as [|todo]; [lia|]. rewrite Nat.add_0_r in Hok.
    by rewrite (static_loop_returned self www pick url todo a0 pg Hok).
  - destruct todo as [|todo]; [lia|].
    destruct (Hfail 0) as [e He]; [lia|]. rewrite Nat.add_0_r in He.
    rewrite (static_loop_retry self www pick url todo a0 e He) by lia.
    destruct (IH todo (S a0) pg) as (Hout & Hc & Hw & Hb).
    { intros i Hi. destruct (Hfail (S i)) as [e' He']; [lia|].
      exists e'. by replace (S a0 + i) with (a0 + S i) by lia. }
    { by replace (S a0 + m) with (a0 + S m) by lia. }
    { lia. }
    { lia. }
    rewrite trace_mk, outcome_mk, !count_cons, Hc, Hw.
    split; [done|]. split; [done|]. split; [done|].
    change (?x :: ?y :: ?z :: ?l) with ([x; y; z] ++ l).
    rewrite backoffs_app, Hb. reflexivity.
Qed.

Lemma fetch_body_eq a :
  web_scraper.fetch_body self www url a
  = ([Fetch (PStr url) None],
     match www a with
     | Returned pg =>
         Returned (PDict (web_scraper.extract self pg ∪ {[ "url" := PStr url ]}))
     | Raised e => Raised e
     end).
Proof. unfold web_scraper.fetch_body. cbn. by destruct (www a). Qed.

Lemma fetch_loop_returned todo a pg :
  www a = Returned pg →
  floop (S todo) a
  = ([Fetch (PStr url) None],
     Returned (PDict (web_scraper.extract self pg ∪ {[ "url" := PStr url ]}))).
Proof.
  intros Hw. cbn [web_scraper.fetch_loop]. by rewrite fetch_body_eq, Hw.
Qed.

Lemma fetch_loop_retry todo a e :
  www a = Raised e →
  (Z.of_nat a < web_scraper.retry_count self - 1)%Z →
  floop (S todo) a
  = (Fetch (PStr url) None :: Sleep Backoff (backoff_delay a)
       :: trace (floop todo (S a)),
     outcome (floop todo (S a))).
Proof.
  intros Hw Hlt. cbn [web_scraper.fetch_loop]. rewrite fetch_body_eq, Hw.
  apply Z.ltb_lt in Hlt. unfold try_except. rewrite Hlt. cbn.
  unfold trace, outcome. by destruct (floop todo (S a)) as [t c].
Qed.

Lemma fetch_loop_give_up todo a e :
  www a = Raised e →
  ¬ (Z.of_nat a < web_scraper.retry_count self - 1)%Z →
  floop (S todo) a
  = ([Fetch (PStr url) None; Log ERROR (FailedToFetch (PStr url) (str e))],
     Returned (PDict {[ "url" := PStr url; "error" := PStr (str e) ]})).
Proof.
  intros Hw Hge. cbn [web_scraper.fetch_loop]. rewrite fetch_body_eq, Hw.
  apply Z.ltb_nlt in Hge. unfold try_except. by rewrite Hge.
Qed.

Lemma fetch_loop_contained todo : ∀ a0,
  Z.of_nat (a0 + S todo) = web_scraper.retry_count self →
  (∃ a pg,
     www a = Returned pg ∧
     outcome (floop (S todo) a0)
     = Returned (PDict (web_scraper.extract self pg ∪ {[ "url" := PStr url ]}))) ∨
  (∃ a e,
     www a = Raised e ∧
     outcome (floop (S todo) a0)
     = Returned (PDict {[ "url" := PStr url; "error" := PStr (str e) ]})).
Proof.
  induction todo as [|todo IH]; intros a0 Hrc.
  - destruct (www a0) as [pg|e] eqn:Hw.
    + rewrite (fetch_loop_returned 0 a0 pg Hw). left. eauto.
    + rewrite (fetch_loop_give_up 0 a0 e Hw) by lia. right. eauto.
  - destruct (www a0) as [pg|e] eqn:Hw.
    + rewrite (fetch_loop_returned (S todo) a0 pg Hw). left. eauto.
    + rewrite (fetch_loop_retry (S todo) a0 e Hw), outcome_mk by lia.
      apply IH. lia.
Qed.

Lemma fetch_loop_exhausted todo : ∀ a0 cause,
  Z.of_nat (a0 + S todo) = web_scraper.retry_count self →
  (∀ i, i ≤ todo → www (a0 + i) = Raised (cause (a0 + i))) →
  outcome (floop (S todo) a0)
    = Returned (PDict {[ "url" := PStr url;
                         "error" := PStr (str (cause (a0 + todo))) ]}) ∧
  count is_call (trace (floop (S todo) a0)) = S todo ∧
  count is_warning (trace (floop (S todo) a0)) = 0 ∧
  backoffs (trace (floop (S todo) a0)) = backoff_delay <$> seq a0 todo.
Proof.
  induction todo as [|todo IH]; intros a0 cause Hrc Hfail.
  - pose proof (Hfail 0 (le_n _)) as He. rewrite Nat.add_0_r in He |- *.
    by rewrite (fetch_loop_give_up 0 a0 _ He) by lia.
  - pose proof (Hfail 0 ltac:(lia)) as He. rewrite Nat.add_0_r in He.
    rewrite (fetch_loop_retry (S todo) a0 _ He) by lia.
    destruct (IH (S a0) cause) as (Hout & Hc & Hw & Hb).
    { lia. }
    { intros i Hi. replace (S a0 + i) with (a0 + S i) by lia.
      apply Hfail. lia. }
    rewrite trace_mk, outcome_mk, Hout, !count_cons, Hc, Hw.
    replace (S a0 + todo) with (a0 + S todo) by lia.
    split; [done|]. split; [done|]. split; [done|].
    change (?x :: ?y :: ?l) with ([x; y] ++ l).
    rewrite backoffs_app, Hb. reflexivity.
Qed.

Lemma fetch_loop_succeeds m : ∀ todo a0 pg,
  (∀ i, i < m → ∃ e, www (a0 + i) = Raised e) →
  www (a0 + m) = Returned pg →
  m < todo →
  (Z.of_nat (a0 + m) < web_scraper.retry_count self)%Z →
  outcome (floop todo a0)
    = Returned (PDict (web_scraper.extract self pg ∪ {[ "url" := PStr url ]})) ∧
  count is_call (trace (floop todo a0)) = S m ∧
  count is_warning (trace (floop todo a0)) = 0 ∧
  backoffs (trace (floop todo a0)) = backoff_delay <$> seq a0 m.
Proof.
  induction m as [|m IH]; intros todo a0 pg Hfail Hok Htodo Hrc.
  - destruct todo as [|todo]; [lia|]. rewrite Nat.add_0_r in Hok.
    by rewrite (fetch_loop_returned todo a0 pg Hok).
  - destruct todo as [|todo]; [lia|].
    destruct (Hfail 0) as [e He]; [lia|]. rewrite Nat.add_0_r in He.
    rewrite (fetch_loop_retry todo a0 e He) by lia.
    destruct (IH todo (S a0) pg) as (Hout & Hc & Hw & Hb).
    { intros i Hi. destruct (Hfail (S i)) as [e' He']; [lia|].
      exists e'. by replace (S a0 + i) with (a0 + S i) by lia. }
    { by replace (S a0 + m) with (a0 + S m) by lia. }
    { lia. }
    { lia. }
    rewrite trace_mk, outcome_mk, !count_cons, Hc, Hw.
    split; [done|]. split; [done|]. split; [done|].
    change (?x :: ?y :: ?l) with ([x; y] ++ l).
    rewrite backoffs_app, Hb. reflexivity.
Qed.

(** The entries of the dict [fetch] returns for a page [pg]. *)
Lemma fetch_data_lookup pg :
  (∀ key selector,
     web_scraper.selectors self !! key = Some selector →
     (web_scraper.extract self pg ∪ {[ "url" := PStr url ]}) !! key
     = Some (PList (PStr <$> pg selector))) ∧
  (web_scraper.selectors self !! "url" = None →
   (web_scraper.extract self pg ∪ {[ "url" := PStr url ]}) !! "url"
   = Some (PStr url)).
Proof.
  split.
  - intros key selector Hkey. apply lookup_union_Some_l.
    unfold web_scraper.extract. by rewrite lookup_fmap, Hkey.
  - intros Hnone. rewrite lookup_union_r.
    + apply lookup_singleton_eq.
    + unfold web_scraper.extract. by rewrite lookup_fmap, Hnone.
Qed.

Lemma fetch_returns :
  ∃ r, outcome (web_scraper.fetch self www url) = Returned r ∧
       ((1 ≤ web_scraper.retry_count self)%Z →
        ∃ d, r = PDict d ∧ is_Some (d !! "url")).
Proof.
  unfold web_scraper.fetch.
  destruct (Z.to_nat (web_scraper.retry_count self)) as [|todo] eqn:Htodo.
  - exists PNone. split; [done|]. lia.
  - destruct (fetch_loop_contained todo 0) as [(a & pg & _ & ->)|(a & e & _ & ->)];
      [lia|..].
    + eexists. split; [done|]. intros _. eexists. split; [done|].
      rewrite lookup_union.
      destruct (web_scraper.extract self pg !! "url"); by eexists.
    + eexists. split; [done|]. intros _. eexists. split; [done|]. by eexists.
Qed.

End scraper_loops.

(** X9.  When fetching a page fails on the first [k - 1] attempts of
    [scrape_static] and succeeds on attempt [k], with
    [1 <= k <= retry_count], the function returns the scraped data, one entry
    per configured selector, after exactly [k] fetches, [k - 1] failure
    reports and the backoff sleeps [2^0 .. 2^(k-2)]. *)
Theorem scrape_static_succeeds_on_attempt_k
    (self : web_scraper.WebScraper) (www : web_scraper.web)
    (pick : nat → nat) (url : string) (k : nat) (pg : web_scraper.page) :
  1 ≤ k →
  (Z.of_nat k ≤ web_scraper.retry_count self)%Z →
  (∀ a, a < k - 1 → ∃ e, www a = Raised e) →
  www (k - 1) = Returned pg →
  ∃ data,
    outcome (web_scraper.scrape_static self www pick url) = Returned (PDict data) ∧
    dom data = dom (web_scraper.selectors self) ∧
    (∀ key selector,
       web_scraper.selectors self !! key = Some selector →
       data !! key = Some (PList (PStr <$> pg selector))) ∧
    count is_call (trace (web_scraper.scrape_static self www pick url)) = k ∧
    count is_warning (trace (web_scraper.scrape_static self www pick url)) = k - 1 ∧
    backoffs (trace (web_scraper.scrape_static self www pick url))
      = (λ a, inject_Z (2 ^ Z.of_nat a)) <$> seq 0 (k - 1).
Proof.
  intros Hk Hrc Hfail Hok.
  destruct (static_loop_succeeds self www pick url (k - 1)
              (Z.to_nat (web_scraper.retry_count self)) 0 pg)
    as (Hout & Hc & Hw & Hb); [done|done|lia|lia|].
  exists (web_scraper.extract self pg). unfold web_scraper.scrape_static.
  rewrite Hout, Hc, Hw, Hb. split; [done|].
  split; [apply dom_fmap_L|].
  split; [|split; [lia|done]].
  intros key selector Hkey. unfold web_scraper.extract.
  by rewrite lookup_fmap, Hkey.
Qed.

Lemma scrape_static_succeeds_on_attempt_k_witness :
  let www : web_scraper.web :=
    λ a, if decide (a = 1) then Returned (λ _, ["Title"])
         else Raised (Exn "Timeout" "timed out") in
  let self := sample_scraper 3 in
  (1 ≤ 2 ∧ (Z.of_nat 2 ≤ web_scraper.retry_count self)%Z ∧
   (∀ a, a < 2 - 1 → ∃ e, www a = Raised e) ∧
   www (2 - 1) = Returned (λ _, ["Title"])) ∧
  ∃ data,
    outcome (web_scraper.scrape_static self www (λ _, 0) "https://example.com")
      = Returned (PDict data) ∧
    dom data = dom (web_scraper.selectors self) ∧
    (∀ key selector,
       web_scraper.selectors self !! key = Some selector →
       data !! key = Some (PList (PStr <$> ["Title"]))) ∧
    count is_call
      (trace (web_scraper.scrape_static self www (λ _, 0) "https://example.com")) = 2 ∧
    count is_warning
      (trace (web_scraper.scrape_static self www (λ _, 0) "https://example.com"))
      = 2 - 1 ∧
    backoffs
      (trace (web_scraper.scrape_static self www (λ _, 0) "https://example.com"))
      = (λ a, inject_Z (2 ^ Z.of_nat a)) <$> seq 0 (2 - 1).
Proof.
  intros www self.
  assert (H1 : 1 ≤ 2) by lia.
  assert (H2 : (Z.of_nat 2 ≤ web_scraper.retry_count self)%Z) by (simpl; lia).
  assert (H3 : ∀ a, a < 2 - 1 → ∃ e, www a = Raised e).
  { intros a Ha. unfold www. rewrite decide_False by lia. eauto. }
  assert (H4 : www (2 - 1) = Returned (λ _, ["Title"])) by reflexivity.
  split; [done|].
  exact (scrape_static_succeeds_on_attempt_k self www (λ _, 0)
           "https://example.com" 2 (λ _, ["Title"]) H1 H2 H3 H4).
Defined.

(** X10.  When fetching a page fails on the first [k - 1] attempts of the
    [fetch] of [scrape_async] and succeeds on attempt [k], with
    [1 <= k <= retry_count], [fetch] returns a dict with one entry per
    configured selector, holding the texts that selector finds in the page,
    and the entry [url] for the page's URL unless a selector is named [url];
    this after exactly [k] fetches, the backoff sleeps [2^0 .. 2^(k-2)] and,
    unlike [scrape_static], no warning for the failed attempts. *)
Theorem fetch_succeeds_on_attempt_k
    (self : web_scraper.WebScraper) (www : web_scraper.web) (url : string)
    (k : nat) (pg : web_scraper.page) :
  1 ≤ k →
  (Z.of_nat k ≤ web_scraper.retry_count self)%Z →
  (∀ a, a < k - 1 → ∃ e, www a = Raised e) →
  www (k - 1) = Returned pg →
  ∃ data,
    outcome (web_scraper.fetch self www url) = Returned (PDict data) ∧
    dom data = dom (web_scraper.selectors self) ∪ {[ "url" ]} ∧
    (∀ key selector,
       web_scraper.selectors self !! key = Some selector →
       data !! key = Some (PList (PStr <$> pg selector))) ∧
    (web_scraper.selectors self !! "url" = None →
     data !! "url" = Some (PStr url)) ∧
    count is_call (trace (web_scraper.fetch self www url)) = k ∧
    count is_warning (trace (web_scraper.fetch self www url)) = 0 ∧
    backoffs (trace (web_scraper.fetch self www url))
      = (λ a, inject_Z (2 ^ Z.of_nat a)) <$> seq 0 (k - 1).
Proof.
  intros Hk Hrc Hfail Hok.
  destruct (fetch_loop_succeeds self www url (k - 1)
              (Z.to_nat (web_scraper.retry_count self)) 0 pg)
    as (Hout & Hc & Hw & Hb); [done|done|lia|lia|].
  destruct (fetch_data_lookup self url pg) as [Hsel Hurl].
  eexists. unfold web_scraper.fetch. rewrite Hout, Hc, Hw, Hb.
  split; [done|].
  split; [by rewrite dom_union_L, dom_singleton_L; unfold web_scraper.extract;
            rewrite dom_fmap_L|].
  split; [exact Hsel|]. split; [exact Hurl|]. split; [lia|done].
Qed.

Lemma fetch_succeeds_on_attempt_k_witness :
  let www : web_scraper.web :=
    λ a, if decide (a = 1) then Returned (λ _, ["Title"])
         else Raised (Exn "Timeout" "timed out") in
  let self := sample_scraper 3 in
  (1 ≤ 2 ∧ (Z.of_nat 2 ≤ web_scraper.retry_count self)%Z ∧
   (∀ a, a < 2 - 1 → ∃ e, www a = Raised e) ∧
   www (2 - 1) = Returned (λ _, ["Title"])) ∧
  ∃ data,
    outcome (web_scraper.fetch self www "https://example.com")
      = Returned (PDict data) ∧
    dom data = dom (web_scraper.selectors self) ∪ {[ "url" ]} ∧
    (∀ key selector,
       web_scraper.selectors self !! key = Some selector →
       data !! key = Some (PList (PStr <$> ["Title"]))) ∧
    (web_scraper.selectors self !! "url" = None →
     data !! "url" = Some (PStr "https://example.com")) ∧
    count is_call (trace (web_scraper.fetch self www "https://example.com")) = 2 ∧
    count is_warning (trace (web_scraper.fetch self www "https://example.com")) = 0 ∧
    backoffs (trace (web_scraper.fetch self www "https://example.com"))
      = (λ a, inject_Z (2 ^ Z.of_nat a)) <$> seq 0 (2 - 1).
Proof.
  intros www self.
  assert (H1 : 1 ≤ 2) by lia.
  assert (H2 : (Z.of_nat 2 ≤ web_scraper.retry_count self)%Z) by (simpl; lia).
  assert (H3 : ∀ a, a < 2 - 1 → ∃ e, www a = Raised e).
  { intros a Ha. unfold www. rewrite decide_False by lia. eauto. }
  assert (H4 : www (2 - 1) = Returned (λ _, ["Title"])) by reflexivity.
  split; [done|].
  exact (fetch_succeeds_on_attempt_k self www "https://example.com" 2
           (λ _, ["Title"]) H1 H2 H3 H4).
Defined.

(** X11.  When every attempt of [fetch] fails, with [retry_count >= 1], it
    returns the error record of the last exception after exactly
    [retry_count] fetches and the backoff sleeps [2^0 .. 2^(retry_count-2)];
    unlike [scrape_static] it logs no warning for the failed attempts. *)
Theorem fetch_exhausted
    (self : web_scraper.WebScraper) (www : web_scraper.web) (url : string)
    (cause : nat → exn) :
  (1 ≤ web_scraper.retry_count self)%Z →
  (∀ a, (Z.of_nat a < web_scraper.retry_count self)%Z → www a = Raised (cause a)) →
  outcome (web_scraper.fetch self www url)
    = Returned (PDict {[ "url" := PStr url;
                         "error" := PStr (str (cause (Z.to_nat
                                      (web_scraper.retry_count self - 1)))) ]}) ∧
  count is_call (trace (web_scraper.fetch self www url))
    = Z.to_nat (web_scraper.retry_count self) ∧
  count is_warning (trace (web_scraper.fetch self www url)) = 0 ∧
  backoffs (trace (web_scraper.fetch self www url))
    = (λ a, inject_Z (2 ^ Z.of_nat a))
        <$> seq 0 (Z.to_nat (web_scraper.retry_count self) - 1).
Proof.
  intros Hrc Hfail. unfold web_scraper.fetch.
  destruct (Z.to_nat (web_scraper.retry_count self)) as [|todo] eqn:Htodo; [lia|].
  destruct (fetch_loop_exhausted self www url todo 0 cause)
    as (Hout & Hc & Hw & Hb).
  - lia.
  - intros i Hi. apply Hfail. lia.
  - rewrite Hout, Hc, Hw, Hb.
    replace (Z.to_nat (web_scraper.retry_count self - 1)) with todo by lia.
    replace (S todo - 1) with todo by lia. done.
Qed.

Lemma fetch_exhausted_witness :
  let self := sample_scraper 3 in
  let cause := λ _ : nat, Exn "HTTPError" "404 Client Error: Not Found" in
  ((1 ≤ web_scraper.retry_count self)%Z ∧
   (∀ a, (Z.of_nat a < web_scraper.retry_count self)%Z →
         not_found a = Raised (cause a))) ∧
  outcome (web_scraper.fetch self not_found "https://example.com")
    = Returned (PDict {[ "url" := PStr "https://example.com";
                         "error" := PStr "404 Client Error: Not Found" ]}) ∧
  count is_call (trace (web_scraper.fetch self not_found "https://example.com")) = 3 ∧
  count is_warning (trace (web_scraper.fetch self not_found "https://example.com")) = 0 ∧
  backoffs (trace (web_scraper.fetch self not_found "https://example.com"))
    = [inject_Z 1; inject_Z 2].
Proof.
  intros self cause.
  assert (H1 : (1 ≤ web_scraper.retry_count self)%Z) by (simpl; lia).
  assert (H2 : ∀ a, (Z.of_nat a < web_scraper.retry_count self)%Z →
                    not_found a = Raised (cause a)) by (intros a _; reflexivity).
  split; [done|].
  exact (fetch_exhausted self not_found "https://example.com" cause H1 H2).
Defined.

(** ** Pagination *)

(** X12.  [handle_pagination] yields the base URL alone when there is no
    pagination, and otherwise one URL per page from [start] to [end]
    inclusive (none when [end < start]), in page order and without
    repetition: URL number [i] is the base URL followed by [?] (or [&] when
    the base URL already has a [?]), the parameter name, [=] and the page
    number [start + i]. *)
Theorem handle_pagination_pages
    (base_url : string) (pagination_config : pagination_config) :
  let page_param := default "page" (pg_param pagination_config) in
  let start_page := default 1%Z (pg_start pagination_config) in
  let end_page := default 10%Z (pg_end pagination_config) in
  let separator := if has_char "?" base_url then "&" else "?" in
  let urls := handle_pagination base_url (Some pagination_config) in
  handle_pagination base_url None = [base_url] ∧
  length urls = Z.to_nat (end_page + 1 - start_page) ∧
  (∀ i, i < length urls →
        urls !! i
        = Some (base_url +:+ separator +:+ page_param +:+ "="
                +:+ pretty (start_page + Z.of_nat i)%Z)) ∧
  NoDup urls.
Proof.
  intros page_param start_page end_page separator urls.
  split; [done|].
  assert (Hlen : length urls = Z.to_nat (end_page + 1 - start_page)).
  { unfold urls, handle_pagination. by rewrite length_fmap, length_seqZ. }
  split; [done|]. split.
  - intros i Hi. unfold urls, handle_pagination.
    rewrite list_lookup_fmap, lookup_seqZ_lt by lia. cbn.
    fold page_param start_page. unfold separator.
    by destruct (has_char "?" base_url).
  - unfold urls, handle_pagination.
    fold page_param start_page end_page.
    destruct (has_char "?" base_url).
    + assert (Inj (=) (=) (λ page : Z,
        base_url +:+ "&" +:+ page_param +:+ "=" +:+ pretty page)) as Hinj.
      { intros p q Heq.
        do 4 apply (inj (String.app _)) in Heq. by apply (inj pretty) in Heq. }
      apply (NoDup_fmap_2 _), NoDup_seqZ.
    + assert (Inj (=) (=) (λ page : Z,
        base_url +:+ "?" +:+ page_param +:+ "=" +:+ pretty page)) as Hinj.
      { intros p q Heq.
        do 4 apply (inj (String.app _)) in Heq. by apply (inj pretty) in Heq. }
      apply (NoDup_fmap_2 _), NoDup_seqZ.
Qed.

(** ** The proxy of a fetch *)

(** X13.  The proxy [scrape_static] passes to a fetch is never empty and is
    always one of [self.proxies]; with no proxies configured there is none,
    and when all the configured ones are non-empty there always is one. *)
Theorem proxy_comes_from_the_list (self : web_scraper.WebScraper) (r : nat) :
  (∀ p, web_scraper.pick_proxy self r = Some p →
        p ∈ web_scraper.proxies self ∧ p ≠ "") ∧
  (web_scraper.proxies self = [] → web_scraper.pick_proxy self r = None) ∧
  (web_scraper.proxies self ≠ [] →
   Forall (λ p, p ≠ "") (web_scraper.proxies self) →
   is_Some (web_scraper.pick_proxy self r)).
Proof.
  unfold web_scraper.pick_proxy. split; [|split].
  - intros p Hp.
    destruct (web_scraper.proxies self !! _) as [q|] eqn:Hq; [|done].
    case_bool_decide as Hne; [done|]. injection Hp as ->.
    split; [by eapply list_elem_of_lookup_2|done].
  - by intros ->.
  - intros Hne Hall.
    assert (r mod length (web_scraper.proxies self)
            < length (web_scraper.proxies self)) as Hlt.
    { apply Nat.mod_upper_bound. by destruct (web_scraper.proxies self). }
    apply lookup_lt_is_Some in Hlt as [q Hq]. rewrite Hq.
    rewrite Forall_forall in Hall.
    rewrite bool_decide_eq_false_2; [by eexists|].
    apply Hall. by eapply list_elem_of_lookup_2.
Qed.

Lemma proxy_comes_from_the_list_witness :
  let self :=
    {| web_scraper.selectors := ∅; web_scraper.retry_count := 3;
       web_scraper.delay_range := (1, 3)%Q;
       web_scraper.proxies := ["http://p1:8080"; "http://p2:8080"] |} in
  (web_scraper.proxies self ≠ [] ∧
   Forall (λ p, p ≠ "") (web_scraper.proxies self)) ∧
  is_Some (web_scraper.pick_proxy self 5) ∧
  (∀ p, web_scraper.pick_proxy self 5 = Some p →
        p ∈ web_scraper.proxies self ∧ p ≠ "").
Proof.
  intros self.
  assert (H1 : web_scraper.proxies self ≠ []) by discriminate.
  assert (H2 : Forall (λ p, p ≠ "") (web_scraper.proxies self))
    by (repeat constructor; discriminate).
  split; [done|].
  destruct (proxy_comes_from_the_list self 5) as (Hin & _ & Hsome).
  split; [exact (Hsome H1 H2)|exact Hin].
Defined.

(** ** Scraped data and the CSV filter *)

(** X14.  The filter of [save_to_csv] takes the [error] key as the mark of a
    failure, so a page scraped with a selector named [error] is dropped like
    a failed one, by [scrape_static] and by [fetch] alike; scraped data
    without such a selector is always kept. *)
Theorem selector_named_error_hides_the_page
    (self : web_scraper.WebScraper) (pg : web_scraper.page) (url : string) :
  (flattened_data [PDict (web_scraper.extract self pg)] = [] ↔
   is_Some (web_scraper.selectors self !! "error")) ∧
  (flattened_data
     [PDict (web_scraper.extract self pg ∪ {[ "url" := PStr url ]})] = [] ↔
   is_Some (web_scraper.selectors self !! "error")).
Proof.
  assert (Hx : web_scraper.extract self pg !! "error"
    = (λ selector, PList (PStr <$> pg selector))
        <$> web_scraper.selectors self !! "error")
    by (unfold web_scraper.extract; apply lookup_fmap).
  assert (Hu : (web_scraper.extract self pg ∪ {[ "url" := PStr url ]}) !! "error"
    = web_scraper.extract self pg !! "error").
  { rewrite lookup_union, lookup_singleton_ne by done.
    by destruct (web_scraper.extract self pg !! "error"). }
  split; cbn; rewrite ?Hu, Hx;
    destruct (web_scraper.selectors self !! "error"); cbn;
    split; try done; try by intros [? ?]. all: by eexists.
Qed.

(** ** The scraper's entry point *)

Lemma time_sleep_ok (secs : Q) :
  (0 <= secs)%Q → time_sleep secs = emit (Sleep Pacing secs).
Proof.
  intros Hs. unfold time_sleep. by rewrite (proj2 (Qle_bool_iff 0 secs) Hs).
Qed.

Lemma time_sleep_negative (secs : Q) :
  (secs < 0)%Q →
  time_sleep secs = raise (Exn "ValueError" "sleep length must be non-negative").
Proof.
  intros Hs. unfold time_sleep.
  destruct (Qle_bool 0 secs) eqn:Hle; [|done].
  apply Qle_bool_iff in Hle. exfalso. by apply (Qlt_not_le secs 0).
Qed.

Lemma gather_fetches self : ∀ urls www,
  ∃ results,
    gather_all (outcome <$> web_scraper.scrape_async self www urls)
      = Returned results ∧
    length results = length urls ∧
    ∀ i url, urls !! i = Some url →
      ∃ r, results !! i = Some r ∧
           outcome (web_scraper.fetch self (www i) url) = Returned r.
Proof.
  unfold web_scraper.scrape_async.
  induction urls as [|url urls IH]; intros www.
  - exists []. by split.
  - destruct (IH (λ i, www (S i))) as (results & Hg & Hlen & Hres).
    destruct (fetch_returns self (www 0) url) as (r & Hr & _).
    exists (r :: results). cbn. unfold compose. rewrite Hr, Hg.
    split; [done|]. split; [by rewrite Hlen|].
    intros [|i] url' Hi; simplify_eq/=; eauto.
Qed.



Lemma static_loop_no_pacing self www pick url : ∀ todo a0,
  count is_pacing (trace (web_scraper.static_loop self www pick url todo a0)) = 0.
Proof.
  induction todo as [|todo IH]; intros a0; [done|].
  destruct (www a0) as [pg|e] eqn:Hw.
  - by rewrite (static_loop_returned self www pick url todo a0 pg Hw).
  - destruct (decide (Z.of_nat a0 < web_scraper.retry_count self - 1)%Z)
      as [Hlt|Hge].
    + rewrite (static_loop_retry self www pick url todo a0 e Hw Hlt), trace_mk.
      rewrite !count_cons. cbn. apply IH.
    + by rewrite (static_loop_give_up self www pick url todo a0 e Hw Hge).
Qed.

Lemma scraper_run_single self base_url pagination www pick rnd scrape_js_heavy
    loop_running url :
  handle_pagination base_url pagination = [url] →
  (0 <= uniform (web_scraper.delay_range self).1
          (web_scraper.delay_range self).2 (rnd 0%nat))%Q →
  scraper_run self "static" base_url pagination www pick rnd scrape_js_heavy
    loop_running false
  = (Sleep Pacing (uniform (web_scraper.delay_range self).1
                     (web_scraper.delay_range self).2 (rnd 0))
       :: trace (web_scraper.scrape_static self (www 0) pick url),
     match outcome (web_scraper.scrape_static self (www 0) pick url) with
     | Returned item => Returned [item]
     | Raised e => Raised e
     end).
Proof.
  intros Hurls Hdelay. unfold scraper_run.
  rewrite (time_sleep_ok _ Hdelay). cbn. rewrite Hurls.
  destruct (web_scraper.scrape_static self (www 0) pick url) as [t [item|e]];
    cbn; by rewrite ?app_nil_r.
Qed.



Section js_loop_facts.
Context (self : web_scraper.WebScraper) (rnd : nat → Q).
Context (scrape_js_heavy : nat → string → io pyval).

Local Abbreviation jloop := (js_loop self rnd scrape_js_heavy).
Local Abbreviation jdelay n :=
  (uniform (web_scraper.delay_range self).1 (web_scraper.delay_range self).2
     (rnd n)).

Lemma js_loop_stops (url : string) (rest : list string) (e : exn) :
  ∀ (visited : list string) (i : nat) (data : list pyval),
    (∀ j u, visited !! j = Some u →
            ∃ item, outcome (scrape_js_heavy (i + j) u) = Returned item) →
    (∀ j, j < length visited → (0 <= jdelay (S (i + j)))%Q) →
    outcome (scrape_js_heavy (i + length visited) url) = Raised e →
    outcome (jloop (visited ++ url :: rest) i data) = Raised e ∧
    trace (jloop (visited ++ url :: rest) i data)
    = trace (jloop visited i data)
        ++ trace (scrape_js_heavy (i + length visited) url).
Proof.
  induction visited as [|u visited IH]; intros i data Hok Hdelay Hfail.
  - cbn [length app js_loop] in *. rewrite Nat.add_0_r in Hfail |- *.
    destruct (scrape_js_heavy i url) as [t c]. rewrite outcome_mk in Hfail.
    subst c. split; reflexivity.
  - destruct (Hok 0 u eq_refl) as [item Hitem]. rewrite Nat.add_0_r in Hitem.
    destruct (IH (S i) (data ++ [item])) as [Hout Htr].
    { intros j u' Hj. replace (S i + j) with (i + S j) by lia.
      by apply (Hok (S j)). }
    { intros j Hj. replace (S i + j) with (i + S j) by lia.
      apply Hdelay. cbn. lia. }
    { by replace (S i + length visited) with (i + length (u :: visited))
        by (cbn; lia). }
    pose proof (Hdelay 0 ltac:(cbn; lia)) as Hd. rewrite Nat.add_0_r in Hd.
    cbn [app js_loop]. rewrite (time_sleep_ok _ Hd).
    destruct (scrape_js_heavy i u) as [t c]. rewrite outcome_mk in Hitem.
    subst c. cbn.
    destruct (jloop (visited ++ url :: rest) (S i) (data ++ [item]))
      as [t1 c1].
    destruct (jloop visited (S i) (data ++ [item])) as [t2 c2].
    rewrite outcome_mk in Hout. rewrite !trace_mk in Htr. subst c1 t1.
    split; [done|]. cbn.
    replace (i + S (length visited)) with (S i + length visited) by lia.
    by rewrite <- !app_assoc.
Qed.

(** The events of the loop over pages that are all scraped: for each page,
    the events of [scrape_js_heavy] and then the delay. *)
Lemma js_loop_trace :
  ∀ (visited : list string) (i : nat) (data : list pyval),
    (∀ j u, visited !! j = Some u →
            ∃ item, outcome (scrape_js_heavy (i + j) u) = Returned item) →
    (∀ j, j < length visited → (0 <= jdelay (S (i + j)))%Q) →
    trace (jloop visited i data)
    = mjoin (imap (λ j u, trace (scrape_js_heavy (i + j) u)
                            ++ [Sleep Pacing (jdelay (S (i + j)))]) visited).
Proof.
  induction visited as [|u visited IH]; intros i data Hok Hdelay; [done|].
  destruct (Hok 0 u eq_refl) as [item Hitem]. rewrite Nat.add_0_r in Hitem.
  pose proof (Hdelay 0 ltac:(cbn; lia)) as Hd. rewrite Nat.add_0_r in Hd.
  cbn [js_loop imap mjoin list_join]. rewrite (time_sleep_ok _ Hd).
  specialize (IH (S i) (data ++ [item])).
  destruct (scrape_js_heavy i u) as [t c] eqn:Hu. rewrite outcome_mk in Hitem.
  subst c. cbn.
  destruct (jloop visited (S i) (data ++ [item])) as [t2 c2].
  rewrite trace_mk in IH |- *. rewrite Nat.add_0_r, Hu, trace_mk, IH.
  - rewrite <- app_assoc. cbn [app]. do 3 f_equal. apply imap_ext.
    intros j u' _. unfold compose. by replace (i + S j) with (S i + j) by lia.
  - intros j u' Hj. replace (S i + j) with (i + S j) by lia.
    by apply (Hok (S j)).
  - intros j Hj. replace (S i + j) with (i + S j) by lia.
    apply Hdelay. cbn. lia.
Qed.

End js_loop_facts.




